(** * engine_components: IfcPropertiesManager and SimpleRenderer

    A shallow embedding of
      - packages/core/src/ifc/IfcPropertiesManager/index.ts
      - the SimpleRenderer component (three.js WebGL + CSS2D renderers)
    and the properties stated about them.

    Conventions of the embedding.
      - Express IDs are unsigned integers ([N]); a number held by an IFC
        value is a finite number, whole ([Z]) or not ([Q] in lowest terms);
        NaN and the infinities are left out.  Pixel sizes are [Z]; ratios
        and time steps are [Q].
      - A [FragmentsGroup] keeps its properties locally: [getProperties id]
        hands out the stored object itself (or null) and [setProperties id v]
        stores [v], deleting the entry when [v] is null.  Mutating an object
        obtained from [getProperties] is therefore an update of the store.
      - Objects built by [new WEBIFC[schema].C(...)] are kept symbolically: the
        class, the schema and the constructor arguments.  The [value] of a
        new [C(v)] is taken to read [v]; what a web-ifc class makes of its
        argument beyond that is outside these sources.
      - [Event.trigger] is recorded in a log; the handlers are client code.
      - Wrapper objects are held by value inside their entity.  An object
        that two entities share, as the owner-history handle that [newPset]
        gives to the Pset and to its relation, is held as two equal copies,
        one in each; a setter defined on it through one entity is then not
        seen through the other.  Attributes the code reads as arrays
        ([HasProperties], [RelatedObjects]) are arrays or the read throws.
      - [UUID.create], [IfcPropertiesUtils.getPsetRel], the IfcLoader and the
        web-ifc API are interfaces ([Externals], [IfcLoader]).
      - async functions are run to completion; a rejected promise is a
        [Throw]. *)

From stdpp Require Import gmap strings list fin_maps pretty.
From Stdlib Require Import ZArith QArith Qminmax Lia.

Local Open Scope N_scope.

(** ** JavaScript values held by IFC entities *)

Inductive Schema := IFC2X3 | IFC4 | IFC4X3.

(** A primitive: a string, a boolean or a finite number.  A whole number is
    a [PNum]; [PFrac] holds the numbers that are not whole, in lowest terms
    ([number_prim] puts a number in this form). *)
Inductive Prim :=
| PStr (s : string)
| PNum (z : Z)
| PBool (b : bool)
| PFrac (q : Q).

#[global] Instance Q_eq_dec : EqDecision Q.
Proof. solve_decision. Defined.

#[global] Instance Prim_eq_dec : EqDecision Prim.
Proof. solve_decision. Defined.

(** The primitive of a finite JavaScript number. *)
Definition number_prim (x : Q) : Prim :=
  let r := Qred x in
  if decide (Qden r = 1%positive) then PNum (Qnum r) else PFrac r.

(** [!p] of JavaScript for a primitive. *)
Definition falsy (p : Prim) : bool :=
  match p with
  | PStr s => bool_decide (s = ""%string)
  | PNum z => bool_decide (z = 0%Z)
  | PBool b => negb b
  | PFrac q => Qeq_bool q 0
  end.

Definition EventId := nat.

(** The property [value] of a wrapper object.  It starts as a plain data
    property; [Object.defineProperty] in [setAttributeListener] turns it into a
    getter/setter pair over the backing field [_value], closed over an event.
    [None] stands for undefined or null. *)
Inductive Slot :=
| Data (v : option Prim)
| Accessor (ev : EventId) (_value : option Prim).

Definition slot_get (s : Slot) : option Prim :=
  match s with
  | Data v => v
  | Accessor _ x => x
  end.

Inductive WClass :=
| Handle
| IfcText | IfcLabel | IfcIdentifier
| IfcInteger | IfcReal
| IfcBoolean | IfcLogical
| IfcGloballyUniqueId.

(** [new WEBIFC.Handle(v)] and [new WEBIFC[schema].C(v)]: an object
    [{ type, value }]. *)
Record Wrapped := mkWrapped {
  w_schema : option Schema;
  w_class : WClass;
  w_slot : Slot
}.

#[warnings="-register-all"]
Inductive Value :=
| VNull
| VRaw (p : Prim)
| VObj (w : Wrapped)
| VArr (l : list Value).

Definition ref (id : N) : Prim := PNum (Z.of_N id).

Definition newHandle (id : N) : Value :=
  VObj (mkWrapped None Handle (Data (Some (ref id)))).

(** [new WEBIFC[s].C(p)]: the new object's [value] reads [p]. *)
Definition newTyped (s : Schema) (c : WClass) (p : Prim) : Value :=
  VObj (mkWrapped (Some s) c (Data (Some p))).

(** web-ifc type codes used by the manager. *)
Definition IFCOWNERHISTORY : N := 1207048766.
Definition IFCPROPERTYSET : N := 1451395588.
Definition IFCPROPERTYSINGLEVALUE : N := 3650150729.
Definition IFCRELDEFINESBYPROPERTIES : N := 4186316022.

(** An IFC line object: [expressID], [type] and the named attributes in
    declaration order. *)
Record Entity := mkEntity {
  expressID : N;
  type : N;
  attrs : list (string * Value)
}.

Fixpoint assoc (k : string) (l : list (string * Value)) : option Value :=
  match l with
  | [] => None
  | (k', v) :: l' => if decide (k = k') then Some v else assoc k l'
  end.

Fixpoint assoc_set (k : string) (v : Value) (l : list (string * Value))
  : list (string * Value) :=
  match l with
  | [] => [(k, v)]
  | (k', v') :: l' =>
      if decide (k = k') then (k, v) :: l' else (k', v') :: assoc_set k v l'
  end.

(** [entity[name]]; [None] is undefined. *)
Definition get_field (e : Entity) (name : string) : option Value :=
  if decide (name = "expressID"%string) then Some (VRaw (ref (expressID e)))
  else if decide (name = "type"%string) then Some (VRaw (ref (type e)))
  else assoc name (attrs e).

Definition set_attr (e : Entity) (name : string) (v : Value) : Entity :=
  mkEntity (expressID e) (type e) (assoc_set name v (attrs e)).

Definition with_expressID (e : Entity) (id : N) : Entity :=
  mkEntity id (type e) (attrs e).

(** Constructors of [WEBIFC[schema]]; [expressID] is assigned by the caller. *)
Definition IfcPropertySet (GlobalId OwnerHistory Name Description : Value)
    (HasProperties : list Value) : Entity :=
  mkEntity 0 IFCPROPERTYSET
    [("GlobalId", GlobalId); ("OwnerHistory", OwnerHistory); ("Name", Name);
     ("Description", Description); ("HasProperties", VArr HasProperties)]%string.

Definition IfcRelDefinesByProperties
    (GlobalId OwnerHistory Name Description : Value)
    (RelatedObjects : list Value) (RelatingPropertyDefinition : Value) : Entity :=
  mkEntity 0 IFCRELDEFINESBYPROPERTIES
    [("GlobalId", GlobalId); ("OwnerHistory", OwnerHistory); ("Name", Name);
     ("Description", Description); ("RelatedObjects", VArr RelatedObjects);
     ("RelatingPropertyDefinition", RelatingPropertyDefinition)]%string.

Definition IfcPropertySingleValue (Name Description NominalValue Unit : Value)
  : Entity :=
  mkEntity 0 IFCPROPERTYSINGLEVALUE
    [("Name", Name); ("Description", Description);
     ("NominalValue", NominalValue); ("Unit", Unit)]%string.

(** ** The model, the manager and the run-time state *)

Record Model := mkModel {
  uuid : string;
  schema : option Schema;          (* model.ifcMetadata.schema *)
  maxExpressID : N;                (* model.ifcMetadata.maxExpressID *)
  properties : gmap N Entity
}.

(** Triggers of the manager's events, oldest first. *)
Inductive Signal :=
| ElementToPset (model : string) (psetID elementID : N)
| PropToPset (model : string) (psetID propID : N)
| PsetRemoved (model : string) (psetID : N)
| DataChanged (model : string) (id : N)
| Disposed (component : string)
| AttributeSet (ev : EventId) (v : Prim).

Record Manager := mkManager {
  selectedModel : option string;
  attributeListeners : gmap string (gmap N (gmap string EventId));
  changeMap : gmap string (list N)       (* Set<number>, insertion order *)
}.

Record State := mkState {
  model : Model;
  mgr : Manager;
  events : nat;                    (* Event objects allocated so far *)
  guids : nat;                     (* UUID.create() calls so far *)
  log : list Signal
}.

Definition component_uuid : string := "58c2d9f0-183c-48d6-a402-dfcf5b9a34df".

(** Code of the repository outside the two files, taken as an interface:
    [UUID.create] (the n-th identifier it hands out) and
    [IfcPropertiesUtils.getPsetRel]. *)
Class Externals := {
  UUID_create : nat -> string;
  getPsetRel : Model -> N -> option N
}.

(** ** Exceptions and the state monad of the manager *)

Inductive Error :=
| SchemaNotFound
| NoOwnerHistory
| EntityMissing (id : N)
| AttributeArrayOrNull (name : string)
| BadHandle (name : string)
| TypeError
| ApiError.

Inductive Outcome (A : Type) :=
| Ok (a : A)
| Throw (e : Error).
Arguments Ok {A} a.
Arguments Throw {A} e.

(** State-and-exception monad; [S] is what the code can mutate. *)
Definition ST (S A : Type) : Type := S -> S * Outcome A.

Definition ret {S A} (a : A) : ST S A := fun st => (st, Ok a).
Definition throw {S A} (e : Error) : ST S A := fun st => (st, Throw e).
Definition bind {S A B} (m : ST S A) (k : A -> ST S B) : ST S B :=
  fun st =>
    match m st with
    | (st', Ok a) => k a st'
    | (st', Throw e) => (st', Throw e)
    end.

Notation "x <- m ;; k" := (bind m (fun x => k))
  (at level 100, m at next level, right associativity).
Notation "m ;;; k" := (bind m (fun _ => k))
  (at level 100, right associativity).

(** [try { m } catch (err) { }] *)
Definition try_catch {S} (m : ST S unit) : ST S unit :=
  fun st => ((m st).1, Ok tt).

(** [for (const x of l) body(x)] *)
Fixpoint for_of {S A} (l : list A) (body : A -> ST S unit) : ST S unit :=
  match l with
  | [] => ret tt
  | x :: l' => body x ;;; for_of l' body
  end.

Definition M (A : Type) : Type := ST State A.

Definition get_state : M State := fun st => (st, Ok st).
Definition put_model (m : Model) : M unit :=
  fun st => (mkState m (mgr st) (events st) (guids st) (log st), Ok tt).
Definition put_mgr (g : Manager) : M unit :=
  fun st => (mkState (model st) g (events st) (guids st) (log st), Ok tt).
Definition trigger (s : Signal) : M unit :=
  fun st => (mkState (model st) (mgr st) (events st) (guids st) (log st ++ [s]), Ok tt).
Definition new_Event : M EventId :=
  fun st => (mkState (model st) (mgr st) (S (events st)) (guids st) (log st),
             Ok (events st)).

(** ** FragmentsGroup accessors *)

Definition getProperties (id : N) : M (option Entity) :=
  fun st => (st, Ok (properties (model st) !! id)).

Definition store (id : N) (v : option Entity) (m : Model) : Model :=
  mkModel (uuid m) (schema m) (maxExpressID m)
    (match v with
     | Some e => <[id := e]> (properties m)
     | None => delete id (properties m)
     end).

Definition setProperties (id : N) (v : option Entity) : M unit :=
  fun st => put_model (store id v (model st)) st.

(** [getAllPropertiesOfType]: the stored entities of that type, null when
    there is none. *)
Definition getAllPropertiesOfType (ty : N) : M (option (gmap N Entity)) :=
  fun st =>
    let found := filter (fun kv => type kv.2 = ty) (properties (model st)) in
    (st, Ok (if decide (found = ∅) then None else Some found)).

(** [Object.keys(o)[0]] for integer keys: the least one. *)
Definition first_key {A} (m : gmap N A) : option N :=
  foldr (fun k acc => match acc with
                      | None => Some k
                      | Some j => Some (N.min k j)
                      end) None (map_to_list m).*1.

(** ** IfcPropertiesManager *)

Definition with_changeMap (g : Manager) (c : gmap string (list N)) : Manager :=
  mkManager (selectedModel g) (attributeListeners g) c.

Definition with_listeners (g : Manager)
    (l : gmap string (gmap N (gmap string EventId))) : Manager :=
  mkManager (selectedModel g) l (changeMap g).

(** [Set.prototype.add] *)
Definition set_add (id : N) (s : list N) : list N :=
  if bool_decide (id ∈ s) then s else s ++ [id].

Definition registerChange (ids : list N) : M unit :=
  st <- get_state;;
  let u := uuid (model st) in
  match changeMap (mgr st) !! u with
  | None => put_mgr (with_changeMap (mgr st) (<[u := []]> (changeMap (mgr st))))
  | Some _ => ret tt
  end;;;
  for_of ids (fun id =>
    st <- get_state;;
    put_mgr (with_changeMap (mgr st)
               (alter (set_add id) u (changeMap (mgr st))));;;
    trigger (DataChanged u id)).

Definition dispose : M unit :=
  put_mgr (mkManager None ∅ ∅);;;
  trigger (Disposed component_uuid).

Definition getIFCSchema : M Schema :=
  st <- get_state;;
  match schema (model st) with
  | None => throw SchemaNotFound
  | Some s => ret s
  end.

Definition setData (dataToSave : list Entity) : M unit :=
  for_of dataToSave (fun data =>
    let expressID := expressID data in
    if bool_decide (expressID = 0) then ret tt
    else
      setProperties expressID (Some data);;;
      registerChange [expressID]).

Definition increaseMaxID : M N :=
  st <- get_state;;
  let m := model st in
  put_model (mkModel (uuid m) (schema m) (maxExpressID m + 1) (properties m));;;
  st <- get_state;;
  ret (maxExpressID (model st)).

Definition newGUID `{Externals} : M Value :=
  schema <- getIFCSchema;;
  fun st =>
    (mkState (model st) (mgr st) (events st) (S (guids st)) (log st),
     Ok (newTyped schema IfcGloballyUniqueId (PStr (UUID_create (guids st))))).

Definition getOwnerHistory : M (Entity * Value) :=
  ownerHistories <- getAllPropertiesOfType IFCOWNERHISTORY;;
  match ownerHistories with
  | None => throw NoOwnerHistory
  | Some ohs =>
      match first_key ohs ≫= (ohs !!.) with
      | None => throw TypeError
      | Some ownerHistory => ret (ownerHistory, newHandle (expressID ownerHistory))
      end
  end.

(** The one [ownerHistoryHandle] object goes into both the Pset and the
    relation; each holds its copy here. *)
Definition newPset `{Externals} (name : string) (description : option string)
  : M (Entity * Entity) :=
  schema <- getIFCSchema;;
  oh <- getOwnerHistory;;
  let ownerHistoryHandle := oh.2 in
  psetGlobalId <- newGUID;;
  let psetName := newTyped schema IfcLabel (PStr name) in
  let psetDescription :=
    match description with
    | Some d => if falsy (PStr d) then VNull else newTyped schema IfcText (PStr d)
    | None => VNull
    end in
  let pset := IfcPropertySet psetGlobalId ownerHistoryHandle psetName
                psetDescription [] in
  id <- increaseMaxID;;
  let pset := with_expressID pset id in
  relGlobalId <- newGUID;;
  let rel := IfcRelDefinesByProperties relGlobalId ownerHistoryHandle VNull VNull
               [] (newHandle (expressID pset)) in
  id <- increaseMaxID;;
  let rel := with_expressID rel id in
  setData [pset; rel];;;
  ret (pset, rel).

(** [v.value] for an array element or attribute. *)
Definition dot_value (v : Value) : M (option Prim) :=
  match v with
  | VNull => throw TypeError
  | VObj w => ret (slot_get (w_slot w))
  | VRaw _ | VArr _ => ret None
  end.

(** The attribute read as an array ([HasProperties], [RelatedObjects]). *)
Definition array_of (e : Entity) (name : string) : M (list Value) :=
  match get_field e name with
  | Some (VArr l) => ret l
  | _ => throw TypeError
  end.

(** [setProperties(k, null)] for a key read from a wrapper: only a
    non-negative number names an entry of the store. *)
Definition delete_key (k : option Prim) : M unit :=
  match k with
  | Some (PNum z) => if bool_decide (0 ≤ z)%Z then setProperties (Z.to_N z) None
                     else ret tt
  | _ => ret tt
  end.

Definition removePset `{Externals} (psetID : list N) : M unit :=
  for_of psetID (fun expressID =>
    pset <- getProperties expressID;;
    match pset with
    | None => ret tt
    | Some pset =>
        if negb (bool_decide (type pset = IFCPROPERTYSET)) then ret tt
        else
          st <- get_state;;
          match getPsetRel (model st) expressID with
          | Some relID =>
              if bool_decide (relID = 0) then ret tt
              else setProperties relID None;;; registerChange [relID]
          | None => ret tt
          end;;;
          props <- array_of pset "HasProperties";;
          for_of props (fun propHandle =>
            k <- dot_value propHandle;;
            delete_key k);;;
          setProperties expressID None;;;
          u <- (fun st => (st, Ok (uuid (model st))));;
          trigger (PsetRemoved u expressID);;;
          registerChange [expressID]
    end).

Inductive StringPropTypes := StrIfcText | StrIfcLabel | StrIfcIdentifier.
Inductive NumericPropTypes := NumIfcInteger | NumIfcReal.
Inductive BooleanPropTypes := BoolIfcBoolean | BoolIfcLogical.

Definition string_class (t : StringPropTypes) : WClass :=
  match t with
  | StrIfcText => IfcText
  | StrIfcLabel => IfcLabel
  | StrIfcIdentifier => IfcIdentifier
  end.

Definition numeric_class (t : NumericPropTypes) : WClass :=
  match t with
  | NumIfcInteger => IfcInteger
  | NumIfcReal => IfcReal
  end.

Definition boolean_class (t : BooleanPropTypes) : WClass :=
  match t with
  | BoolIfcBoolean => IfcBoolean
  | BoolIfcLogical => IfcLogical
  end.

Definition newSingleProperty (type : WClass) (name : string) (value : Prim)
  : M Entity :=
  schema <- getIFCSchema;;
  let propName := newTyped schema IfcIdentifier (PStr name) in
  let propValue := newTyped schema type value in
  let prop := IfcPropertySingleValue propName VNull propValue VNull in
  id <- increaseMaxID;;
  let prop := with_expressID prop id in
  setData [prop];;;
  ret prop.

Definition newSingleStringProperty (type : StringPropTypes)
    (name value : string) : M Entity :=
  newSingleProperty (string_class type) name (PStr value).

Definition newSingleNumericProperty (type : NumericPropTypes)
    (name : string) (value : Q) : M Entity :=
  newSingleProperty (numeric_class type) name (number_prim value).

Definition newSingleBooleanProperty (type : BooleanPropTypes)
    (name : string) (value : bool) : M Entity :=
  newSingleProperty (boolean_class type) name (PBool value).

(** [Array.prototype.filter] with a callback that may throw. *)
Fixpoint filter_arr (f : Value -> M bool) (l : list Value) : M (list Value) :=
  match l with
  | [] => ret []
  | x :: l' =>
      keep <- f x;;
      rest <- filter_arr f l';;
      ret (if keep : bool then x :: rest else rest)
  end.

(** An assignment to a field of the object stored under [id]. *)
Definition assign_field (id : N) (name : string) (v : Value) : M unit :=
  fun st =>
    match properties (model st) !! id with
    | Some e => put_model (store id (Some (set_attr e name v)) (model st)) st
    | None => (st, Ok tt)
    end.

Definition removePsetProp (psetID propID : N) : M unit :=
  pset <- getProperties psetID;;
  prop <- getProperties propID;;
  match pset, prop with
  | Some pset, Some _ =>
      if negb (bool_decide (type pset = IFCPROPERTYSET)) then ret tt
      else
        arr <- array_of pset "HasProperties";;
        kept <- filter_arr (fun handle =>
                  v <- dot_value handle;;
                  ret (bool_decide (v ≠ Some (ref propID)))) arr;;
        assign_field psetID "HasProperties" (VArr kept);;;
        setProperties propID None;;;
        registerChange [psetID; propID]
  | _, _ => ret tt
  end.

(** [obj.name.push(v)] on the object stored under [id]. *)
Definition push_field (id : N) (name : string) (v : Value) : M unit :=
  e <- getProperties id;;
  match e with
  | Some e => arr <- array_of e name;; assign_field id name (VArr (arr ++ [v]))
  | None => ret tt
  end.

Definition addElementToPset `{Externals} (psetID : N) (elementID : list N)
  : M unit :=
  st <- get_state;;
  let u := uuid (model st) in
  match getPsetRel (model st) psetID with
  | None => ret tt
  | Some relID =>
      if bool_decide (relID = 0) then ret tt
      else
        rel <- getProperties relID;;
        match rel with
        | None => ret tt
        | Some _ =>
            for_of elementID (fun expressID =>
              let elementHandle := newHandle expressID in
              push_field relID "RelatedObjects" elementHandle;;;
              trigger (ElementToPset u psetID expressID));;;
            registerChange [psetID]
        end
  end.

(** [arr.includes(id)] for a number: SameValueZero equates it with a number
    only, never with an object. *)
Definition includes (arr : list Value) (id : N) : bool :=
  existsb (fun v => match v with
                    | VRaw p => bool_decide (p = ref id)
                    | _ => false
                    end) arr.

Definition addPropToPset (psetID : N) (propID : list N) : M unit :=
  st <- get_state;;
  let u := uuid (model st) in
  pset <- getProperties psetID;;
  match pset with
  | None => ret tt
  | Some _ =>
      for_of propID (fun expressID =>
        cur <- getProperties psetID;;
        match cur with
        | None => ret tt
        | Some cur =>
            arr <- array_of cur "HasProperties";;
            if includes arr expressID then ret tt
            else
              let elementHandle := newHandle expressID in
              push_field psetID "HasProperties" elementHandle;;;
              trigger (PropToPset u psetID expressID)
        end);;;
      registerChange [psetID]
  end.

(** *** Attribute listeners *)

(** [Object.defineProperty(w, "value", { get, set })]: the data value is
    dropped, the backing field [_value] is whatever the object already has. *)
Definition defineProperty (w : Wrapped) (event : EventId) : Wrapped :=
  mkWrapped (w_schema w) (w_class w)
    (Accessor event (match w_slot w with
                     | Data _ => None
                     | Accessor _ x => x
                     end)).

(** [w.value = v]: a plain store, or the setter
    [this._value = value; event.trigger(value)]. *)
Definition slot_set (s : Slot) (v : Prim) : Slot * list Signal :=
  match s with
  | Data _ => (Data (Some v), [])
  | Accessor ev _ => (Accessor ev (Some v), [AttributeSet ev v])
  end.

(** The statement [entity[name].value = v] on the object stored under [id]. *)
Definition assign_value (id : N) (name : string) (v : Prim) : M unit :=
  entity <- getProperties id;;
  match entity with
  | None => throw TypeError
  | Some entity =>
      match get_field entity name with
      | Some (VObj w) =>
          let (s, sigs) := slot_set (w_slot w) v in
          assign_field id name (VObj (mkWrapped (w_schema w) (w_class w) s));;;
          for_of sigs trigger
      | Some (VArr _) => ret tt
      | _ => throw TypeError
      end
  end.

(** [entity[name].value] *)
Definition read_value (m : Model) (id : N) (name : string) : option Prim :=
  match properties m !! id ≫= (fun e => get_field e name) with
  | Some (VObj w) => slot_get (w_slot w)
  | _ => None
  end.

Definition existing_listener (g : Manager) (u : string) (id : N)
    (name : string) : option EventId :=
  match attributeListeners g !! u with
  | Some byID =>
      match byID !! id with
      | Some byName => byName !! name
      | None => None
      end
  | None => None
  end.

Definition setAttributeListener (expressID : N) (attributeName : string)
  : M EventId :=
  st <- get_state;;
  let u := uuid (model st) in
  match attributeListeners (mgr st) !! u with
  | None => put_mgr (with_listeners (mgr st)
                       (<[u := ∅]> (attributeListeners (mgr st))))
  | Some _ => ret tt
  end;;;
  st <- get_state;;
  match existing_listener (mgr st) u expressID attributeName with
  | Some existingListener => ret existingListener
  | None =>
      entity <- getProperties expressID;;
      match entity with
      | None => throw (EntityMissing expressID)
      | Some entity =>
          match get_field entity attributeName with
          | None | Some VNull | Some (VArr _) =>
              throw (AttributeArrayOrNull attributeName)
          | Some (VRaw p) =>
              if falsy p then throw (AttributeArrayOrNull attributeName)
              else throw (BadHandle attributeName)
          | Some (VObj attribute) =>
              match slot_get (w_slot attribute) with
              | None => throw (BadHandle attributeName)
              | Some value =>
                  event <- new_Event;;
                  assign_field expressID attributeName
                    (VObj (defineProperty attribute event));;;
                  assign_value expressID attributeName value;;;
                  st <- get_state;;
                  let all := attributeListeners (mgr st) in
                  let byID := default ∅ (all !! u) in
                  let byName := default ∅ (byID !! expressID) in
                  put_mgr (with_listeners (mgr st)
                    (<[u := <[expressID := <[attributeName := event]> byName]>
                              byID]> all));;;
                  ret event
              end
          end
      end
  end.

(** *** Saving to IFC *)

(** The IfcLoader component and the web-ifc API it wraps, over the state
    [Api] of the WASM module.  Every call may throw. *)
Class IfcLoader (Api : Type) := {
  readIfcFile : list Byte.byte -> ST Api Z;
  DeleteLine : Z -> N -> ST Api unit;
  WriteLine : Z -> Entity -> ST Api unit;
  SaveModel : Z -> ST Api (list Byte.byte);
  CloseModel : Z -> ST Api unit;
  cleanUp : ST Api unit
}.

Inductive ApiCall :=
| CallReadIfcFile (data : list Byte.byte)
| CallDeleteLine (modelID : Z) (expressID : N)
| CallWriteLine (modelID : Z) (data : Entity)
| CallSaveModel (modelID : Z)
| CallCloseModel (modelID : Z)
| CallCleanUp.

(** The WASM state together with the calls made on it, oldest first. *)
Record Wasm (Api : Type) := mkWasm {
  api : Api;
  calls : list ApiCall
}.
Arguments mkWasm {Api} api calls.
Arguments api {Api} w.
Arguments calls {Api} w.

Definition call {Api A} (c : ApiCall) (f : ST Api A) : ST (Wasm Api) A :=
  fun w =>
    let (a, r) := f (api w) in
    (mkWasm a (calls w ++ [c]), r).

Definition saveToIfc {Api} `{IfcLoader Api} (g : Manager) (model : Model)
    (ifcToSaveOn : list Byte.byte) : ST (Wasm Api) (list Byte.byte) :=
  modelID <- call (CallReadIfcFile ifcToSaveOn) (readIfcFile ifcToSaveOn);;
  let changes := default [] (changeMap g !! uuid model) in
  for_of changes (fun expressID =>
    let data := properties model !! expressID in
    match data with
    | None =>
        try_catch (call (CallDeleteLine modelID expressID)
                        (DeleteLine modelID expressID))
    | Some data =>
        try_catch (call (CallWriteLine modelID data) (WriteLine modelID data))
    end);;;
  modifiedIFC <- call (CallSaveModel modelID) (SaveModel modelID);;
  call (CallCloseModel modelID) (CloseModel modelID);;;
  call CallCleanUp cleanUp;;;
  ret modifiedIFC.

(** ** SimpleRenderer *)

Module SimpleRenderer.

(** three.js and DOM objects are references; the calls made on them and the
    triggers of the two events are logged, oldest first. *)
Definition Ref := nat.

Inductive Call :=
| NewCSS2DRenderer (renderer : Ref)
| NewWebGLRenderer (renderer : Ref)
| TriggerBeforeUpdate
| TriggerAfterUpdate
| WebGLRender (renderer scene camera : Ref)
| CSS2DRender (renderer scene camera : Ref)
| SetPixelRatio (renderer : Ref) (ratio : Q)
| SetLocalClipping (renderer : Ref)
| StyleOverlay (renderer2D : Ref)
| AppendChild (container : Ref) (renderer : Ref)
| OnWindowResize
| WebGLSetSize (renderer : Ref) (width height : Z)
| CSS2DSetSize (renderer : Ref) (width height : Z)
| RemoveDomElement (renderer : Ref)
| DisposeRenderer (renderer : Ref).

(** The fields of the component; [None] is null. *)
Record Fields := mkFields {
  container : option Ref;
  _renderer2D : option Ref;
  _renderer : option Ref
}.

Record World := mkWorld {
  self : Fields;
  allocated : nat;                 (* objects created with [new] so far *)
  trace : list Call
}.

(** What [components.scene?.get()] and [components.camera?.get()] give at
    the time of the call. *)
Record Components := mkComponents {
  scene : option Ref;
  camera : option Ref
}.

Definition R (A : Type) : Type := ST World A.

Definition emit (c : Call) : R unit :=
  fun w => (mkWorld (self w) (allocated w) (trace w ++ [c]), Ok tt).
Definition new_object (made : Ref -> Call) : R Ref :=
  fun w => (mkWorld (self w) (S (allocated w))
              (trace w ++ [made (allocated w)]), Ok (allocated w)).
Definition fields : R Fields := fun w => (w, Ok (self w)).
Definition set_fields (f : Fields) : R unit :=
  fun w => (mkWorld f (allocated w) (trace w), Ok tt).

(** Dereferencing a field that may be null. *)
Definition deref (o : option Ref) : R Ref :=
  match o with
  | Some r => ret r
  | None => throw TypeError
  end.

Definition get : R (option Ref) :=
  f <- fields;; ret (_renderer f).

Definition update (components : Components) (_delta : Q) : R unit :=
  emit TriggerBeforeUpdate;;;
  let scene := scene components in
  let camera := camera components in
  match scene, camera with
  | Some scene, Some camera =>
      f <- fields;;
      r <- deref (_renderer f);;
      emit (WebGLRender r scene camera);;;
      f <- fields;;
      r2 <- deref (_renderer2D f);;
      emit (CSS2DRender r2 scene camera);;;
      emit TriggerAfterUpdate
  | _, _ => ret tt
  end.

Definition dispose : R unit :=
  f <- fields;;
  r <- deref (_renderer f);;
  emit (RemoveDomElement r);;;
  emit (DisposeRenderer r);;;
  set_fields (mkFields None None None).

(** [clientWidth] and [clientHeight] are read from the page. *)
Definition getSize (clientWidth clientHeight : Z) : R (Z * Z) :=
  f <- fields;;
  _ <- deref (_renderer f);;
  ret (clientWidth, clientHeight).

Definition resize (clientWidth clientHeight : Z) : R unit :=
  f <- fields;;
  _ <- deref (container f);;
  let width := clientWidth in
  let height := clientHeight in
  r <- deref (_renderer f);;
  emit (WebGLSetSize r width height);;;
  r2 <- deref (_renderer2D f);;
  emit (CSS2DSetSize r2 width height).

Definition setupRenderers : R unit :=
  f <- fields;;
  r <- deref (_renderer f);;
  emit (SetLocalClipping r);;;
  c <- deref (container f);;
  emit (AppendChild c r);;;
  r2 <- deref (_renderer2D f);;
  emit (StyleOverlay r2);;;
  emit (AppendChild c r2).

Definition setupEvents : R unit := emit OnWindowResize.

(** [new SimpleRenderer(components, container)] *)
Definition constructor (container : Ref) (devicePixelRatio : Q)
    (clientWidth clientHeight : Z) : R unit :=
  r2 <- new_object NewCSS2DRenderer;;
  set_fields (mkFields (Some container) (Some r2) None);;;
  r <- new_object NewWebGLRenderer;;
  set_fields (mkFields (Some container) (Some r2) (Some r));;;
  emit (SetPixelRatio r (Qmin devicePixelRatio 2));;;
  setupRenderers;;;
  setupEvents;;;
  resize clientWidth clientHeight.

(** The calls a client makes between construction and disposal. *)
Inductive Op :=
| Update (components : Components) (delta : Q)
| Resize (clientWidth clientHeight : Z)
| GetSize (clientWidth clientHeight : Z).

Definition run_op (o : Op) : R unit :=
  match o with
  | Update c d => update c d
  | Resize w h => resize w h
  | GetSize w h => _ <- getSize w h;; ret tt
  end.

Definition run (ops : list Op) : R unit := for_of ops run_op.

(** The component is live: none of its fields has been nulled. *)
Definition live (w : World) (c r2 r : Ref) : Prop :=
  self w = mkFields (Some c) (Some r2) (Some r).

End SimpleRenderer.

(** ** The operations of the manager as one type *)

Inductive Op :=
| SetData (dataToSave : list Entity)
| NewPset (name : string) (description : option string)
| RemovePset (psetID : list N)
| NewSingleStringProperty (type : StringPropTypes) (name value : string)
| NewSingleNumericProperty (type : NumericPropTypes) (name : string) (value : Q)
| NewSingleBooleanProperty (type : BooleanPropTypes) (name : string) (value : bool)
| RemovePsetProp (psetID propID : N)
| AddElementToPset (psetID : N) (elementID : list N)
| AddPropToPset (psetID : N) (propID : list N)
| SetAttributeListener (expressID : N) (attributeName : string)
| Dispose.

Definition discard {A} (m : M A) : M unit := _ <- m;; ret tt.

Definition run_op `{Externals} (o : Op) : M unit :=
  match o with
  | SetData d => setData d
  | NewPset n d => discard (newPset n d)
  | RemovePset ids => removePset ids
  | NewSingleStringProperty t n v => discard (newSingleStringProperty t n v)
  | NewSingleNumericProperty t n v => discard (newSingleNumericProperty t n v)
  | NewSingleBooleanProperty t n v => discard (newSingleBooleanProperty t n v)
  | RemovePsetProp p q => removePsetProp p q
  | AddElementToPset p ids => addElementToPset p ids
  | AddPropToPset p ids => addPropToPset p ids
  | SetAttributeListener id a => discard (setAttributeListener id a)
  | Dispose => dispose
  end.

Definition creates (o : Op) : bool :=
  match o with
  | NewPset _ _ | NewSingleStringProperty _ _ _
  | NewSingleNumericProperty _ _ _ | NewSingleBooleanProperty _ _ _ => true
  | _ => false
  end.

(** ** Sample data *)

(** A stand-in for [IfcPropertiesUtils.getPsetRel] on the sample models: the
    IfcRelDefinesByProperties whose RelatingPropertyDefinition refers to the
    Pset. *)
Definition sample_getPsetRel (m : Model) (psetID : N) : option N :=
  match properties m !! psetID with
  | None => None
  | Some _ =>
      expressID <$>
        List.find (fun e =>
            bool_decide (type e = IFCRELDEFINESBYPROPERTIES) &&
            match get_field e "RelatingPropertyDefinition" with
            | Some (VObj w) => bool_decide (slot_get (w_slot w) = Some (ref psetID))
            | _ => false
            end)
          (map_to_list (properties m)).*2
  end.

Definition sample_externals : Externals :=
  {| UUID_create n := ("guid-" +:+ pretty n)%string;
     getPsetRel := sample_getPsetRel |}.

Definition sample_ownerHistory : Entity :=
  mkEntity 5 IFCOWNERHISTORY [].

Definition sample_prop : Entity :=
  with_expressID
    (IfcPropertySingleValue (newTyped IFC4 IfcIdentifier (PStr "FireRating"))
       VNull (newTyped IFC4 IfcLabel (PStr "EI60")) VNull) 11.

Definition sample_pset : Entity :=
  with_expressID
    (IfcPropertySet (newTyped IFC4 IfcGloballyUniqueId (PStr "g0"))
       (newHandle 5) (newTyped IFC4 IfcLabel (PStr "Pset_WallCommon")) VNull
       [newHandle 11]) 10.

Definition sample_rel : Entity :=
  with_expressID
    (IfcRelDefinesByProperties (newTyped IFC4 IfcGloballyUniqueId (PStr "g1"))
       (newHandle 5) VNull VNull [newHandle 7] (newHandle 10)) 12.

Definition sample_model : Model :=
  mkModel "model-A" (Some IFC4) 12
    (<[5 := sample_ownerHistory]> (<[10 := sample_pset]>
       (<[11 := sample_prop]> (<[12 := sample_rel]> ∅)))).

Definition fresh_manager : Manager := mkManager None ∅ ∅.

Definition sample_state : State :=
  mkState sample_model fresh_manager 0 0 [].

Definition page : SimpleRenderer.World :=
  SimpleRenderer.mkWorld (SimpleRenderer.mkFields None None None) 1 [].

(** A renderer constructed on container 0 of an 800 x 600 page. *)
Definition sample_renderer : SimpleRenderer.World :=
  (SimpleRenderer.constructor 0%nat 1 800 600 page).1.

(** A stand-in for the WASM module on the sample models: the open file is
    the map of its lines, deleting a missing line throws, and the saved file
    lists the express IDs that remain. *)
Definition sample_loader : IfcLoader (gmap N Entity) :=
  {| readIfcFile _ := ret 0%Z;
     DeleteLine _ id := fun a =>
       match a !! id with
       | Some _ => (delete id a, Ok tt)
       | None => (a, Throw ApiError)
       end;
     WriteLine _ data := fun a => (<[expressID data := data]> a, Ok tt);
     SaveModel _ := fun a =>
       (a, Ok ((fun kv => default Byte.x00 (Byte.of_N (kv.1 `mod` 256)))
                 <$> map_to_list a));
     CloseModel _ := ret tt;
     cleanUp := ret tt |}.

(** ** What [saveToIfc] is expected to do, in the words of its description *)

(** The API call that serializes the edit recorded for [id]. *)
Definition edit_call (m : Model) (modelID : Z) (id : N) : ApiCall :=
  match properties m !! id with
  | None => CallDeleteLine modelID id
  | Some data => CallWriteLine modelID data
  end.

(** The WASM state after that call, whether it returned or threw. *)
Definition apply_edit {Api} `{IfcLoader Api} (m : Model) (modelID : Z)
    (a : Api) (id : N) : Api :=
  match properties m !! id with
  | None => (DeleteLine modelID id a).1
  | Some data => (WriteLine modelID data a).1
  end.

Definition apply_changes {Api} `{IfcLoader Api} (m : Model) (modelID : Z)
    (changes : list N) (a : Api) : Api :=
  fold_left (apply_edit m modelID) changes a.

(** The accessor of event [ev] sits on the attribute [a] of the entity stored
    under [id], over the backing value [x]. *)
Definition installed (st : State) (id : N) (a : string) (ev : EventId)
    (x : option Prim) : Prop :=
  exists e s c,
    properties (model st) !! id = Some e /\
    get_field e a = Some (VObj (mkWrapped s c (Accessor ev x))).

(** [changeMap[uuid] ?? []] *)
Definition change_set (g : Manager) (u : string) : list N :=
  default [] (changeMap g !! u).

(** [ids] added to the set [s] one after the other. *)
Definition add_all (ids : list N) (s : list N) : list N :=
  fold_left (fun s id => set_add id s) ids s.

(** ** What the creation operations are expected to do *)

(** [r] is the result of creating a single-value property named [name] whose
    nominal value wraps [value] in the class [cls] of schema [s]: the property
    is returned, carries the express ID following [maxExpressID], is stored
    under it, and the ID is registered as changed. *)
Definition single_value_created (st : State) (s : Schema) (cls : WClass)
    (name : string) (value : Prim) (r : State * Outcome Entity) : Prop :=
  let u := uuid (model st) in
  let id := maxExpressID (model st) + 1 in
  let prop :=
    with_expressID
      (IfcPropertySingleValue (newTyped s IfcIdentifier (PStr name)) VNull
         (newTyped s cls value) VNull) id in
  r.2 = Ok prop /\
  properties (model r.1) = <[id := prop]> (properties (model st)) /\
  maxExpressID (model r.1) = id /\
  id ∈ change_set (mgr r.1) u /\
  log r.1 = log st ++ [DataChanged u id] /\
  maxExpressID (model st) < id /\
  ((forall k, is_Some (properties (model st) !! k) ->
              k <= maxExpressID (model st)) ->
   properties (model st) !! id = None).

(** [r] is the result of creating a Pset [name] with its relation: both are
    returned, carry the two express IDs following [maxExpressID], are stored
    under them and registered as changed; the Pset has no property and the
    relation relates nothing yet. *)
Definition pset_created `{Externals} (st : State) (s : Schema) (name : string)
    (description : option string) (r : State * Outcome (Entity * Entity))
  : Prop :=
  let u := uuid (model st) in
  let psetID := maxExpressID (model st) + 1 in
  let relID := maxExpressID (model st) + 2 in
  exists k oh,
    properties (model st) !! k = Some oh /\ type oh = IFCOWNERHISTORY /\
    let ownerHistoryHandle := newHandle (expressID oh) in
    let pset :=
      with_expressID
        (IfcPropertySet
           (newTyped s IfcGloballyUniqueId (PStr (UUID_create (guids st))))
           ownerHistoryHandle
           (newTyped s IfcLabel (PStr name))
           (match description with
            | Some d => if bool_decide (d = ""%string) then VNull
                        else newTyped s IfcText (PStr d)
            | None => VNull
            end)
           []) psetID in
    let rel :=
      with_expressID
        (IfcRelDefinesByProperties
           (newTyped s IfcGloballyUniqueId (PStr (UUID_create (S (guids st)))))
           ownerHistoryHandle VNull VNull [] (newHandle psetID)) relID in
    r.2 = Ok (pset, rel) /\
    properties (model r.1) =
      <[relID := rel]> (<[psetID := pset]> (properties (model st))) /\
    maxExpressID (model r.1) = relID /\
    psetID ≠ relID /\
    maxExpressID (model st) < psetID /\ maxExpressID (model st) < relID /\
    psetID ∈ change_set (mgr r.1) u /\ relID ∈ change_set (mgr r.1) u /\
    log r.1 = log st ++ [DataChanged u psetID; DataChanged u relID] /\
    ((forall k, is_Some (properties (model st) !! k) ->
                k <= maxExpressID (model st)) ->
     properties (model st) !! psetID = None /\
     properties (model st) !! relID = None).

(** ** Frame conditions *)

(** [m] leaves [model.ifcMetadata.maxExpressID] as it found it. *)
Definition keeps_max {A} (m : M A) : Prop :=
  forall st, maxExpressID (model (m st).1) = maxExpressID (model st).

(** ** The calls a sequence of renderer operations is expected to make *)

Module RendererTrace.
Import SimpleRenderer.

(** The calls of one operation on a live component with WebGL renderer [r]
    and CSS2D renderer [r2]. *)
Definition op_calls (r2 r : Ref) (o : Op) : list Call :=
  match o with
  | Update comps _ =>
      match scene comps, camera comps with
      | Some s, Some cam =>
          [TriggerBeforeUpdate; WebGLRender r s cam; CSS2DRender r2 s cam;
           TriggerAfterUpdate]
      | _, _ => [TriggerBeforeUpdate]
      end
  | Resize cw ch => [WebGLSetSize r cw ch; CSS2DSetSize r2 cw ch]
  | GetSize _ _ => []
  end.

(** The component after [dispose]. *)
Definition disposed (w : World) : Prop :=
  self w = mkFields None None None.

End RendererTrace.

(** Stand-ins for a WASM module that fails: [readIfcFile] throws on an input
    that does not start with byte 0x49, and [SaveModel] throws when no line is
    left. *)
Definition picky_loader : IfcLoader (gmap N Entity) :=
  {| readIfcFile data :=
       match data with
       | Byte.x49 :: _ => ret 0%Z
       | _ => throw ApiError
       end;
     DeleteLine := @DeleteLine _ sample_loader;
     WriteLine := @WriteLine _ sample_loader;
     SaveModel modelID := fun a =>
       if decide (a = ∅) then (a, Throw ApiError)
       else @SaveModel _ sample_loader modelID a;
     CloseModel _ := ret tt;
     cleanUp := ret tt |}.

(** ** Relations between the state before and after an operation *)

(** [m] takes every state to one related to it by [P], whether it returns or
    throws. *)
Definition respects (P : State -> State -> Prop) {A} (m : M A) : Prop :=
  forall st, P st (m st).1.

(** Every express ID registered as changed is still registered. *)
Definition changes_kept (st st' : State) : Prop :=
  forall u id, id ∈ change_set (mgr st) u -> id ∈ change_set (mgr st') u.

(** No entity is stored under an express ID that held none before. *)
Definition no_new_entity (st st' : State) : Prop :=
  forall k, is_Some (properties (model st') !! k) ->
            is_Some (properties (model st) !! k).

(** Every stored express ID is at most [maxExpressID]. *)
Definition ids_bounded (st : State) : Prop :=
  forall k, is_Some (properties (model st) !! k) ->
            k <= maxExpressID (model st).

(** The operations one after the other, each on the state the previous one
    left, whether it returned or threw. *)
Definition run_ops `{Externals} (ops : list Op) (st : State) : State :=
  fold_left (fun st o => (run_op o st).1) ops st.

(** The sample model without a schema, and without its IfcOwnerHistory. *)
Definition sample_state_no_schema : State :=
  mkState (mkModel "model-B" None 12 (properties sample_model))
    fresh_manager 0 0 [].

Definition sample_state_no_history : State :=
  mkState (mkModel "model-C" (Some IFC4) 12 (delete 5 (properties sample_model)))
    fresh_manager 0 0 [].

(** ** What [setData] is expected to leave behind *)

(** The entries [setData] stores: those with a truthy express ID. *)
Definition stored_entries (dataToSave : list Entity) : list Entity :=
  filter (fun d => expressID d <> 0) dataToSave.

(** ** What the removal and addition operations are expected to do *)

(** The relation [removePset] removes along with the Pset: the one
    [getPsetRel] finds, if it finds one with a truthy ID. *)
Definition found_rel `{Externals} (m : Model) (psetID : N) : list N :=
  match getPsetRel m psetID with
  | Some relID => if decide (relID = 0) then [] else [relID]
  | None => []
  end.

(** The array holds objects only: handles or inline values, no raw number. *)
Definition objects_only (arr : list Value) : Prop :=
  Forall (fun v => forall p, v <> VRaw p) arr.

(** ** What [setAttributeListener] is expected to answer *)

(** The outcome for an entity attribute with no listener yet: the errors in
    the order the code tests for them, or the next event. *)
Definition listener_outcome (st : State) (id : N) (a : string)
  : Outcome EventId :=
  match properties (model st) !! id with
  | None => Throw (EntityMissing id)
  | Some e =>
      match get_field e a with
      | None | Some VNull | Some (VArr _) => Throw (AttributeArrayOrNull a)
      | Some (VRaw p) =>
          if falsy p then Throw (AttributeArrayOrNull a)
          else Throw (BadHandle a)
      | Some (VObj w) =>
          match slot_get (w_slot w) with
          | None => Throw (BadHandle a)
          | Some _ => Ok (events st)
          end
      end
  end.

(** The change sets of the other models are as they were, and the model is
    still the same one. *)
Definition other_models_kept (st st' : State) : Prop :=
  uuid (model st') = uuid (model st) /\
  forall u, u <> uuid (model st) ->
            changeMap (mgr st') !! u = changeMap (mgr st) !! u.

(** ** The created entities, attribute by attribute *)

(** [new WEBIFC[s].C(p)] as the entity holds it: an object of schema [s] and
    class [c] whose [value] reads the constructor's argument [p]. *)
Definition typed_object (s : Schema) (c : WClass) (p : Prim) : Value :=
  VObj {| w_schema := Some s; w_class := c; w_slot := Data (Some p) |}.

(** [new WEBIFC.Handle(id)] as the entity holds it. *)
Definition handle_object (id : N) : Value :=
  VObj {| w_schema := None; w_class := Handle;
          w_slot := Data (Some (PNum (Z.of_N id))) |}.

(** [prop] is the IfcPropertySingleValue (type code 3650150729) with express
    ID [id], named [name], whose nominal value is the object of class [cls]
    constructed from [value]; it has neither a description nor a unit. *)
Definition is_single_value (s : Schema) (cls : WClass) (name : string)
    (value : Prim) (id : N) (prop : Entity) : Prop :=
  expressID prop = id /\
  type prop = 3650150729 /\
  attrs prop =
    [("Name", typed_object s IfcIdentifier (PStr name));
     ("Description", VNull);
     ("NominalValue", typed_object s cls value);
     ("Unit", VNull)]%string.

(** [r] is the result of creating, storing and returning such a property under
    the express ID following [maxExpressID].  That ID is new to the model when
    every stored ID is at most [maxExpressID]. *)
Definition single_value_stored (st : State) (s : Schema) (cls : WClass)
    (name : string) (value : Prim) (r : State * Outcome Entity) : Prop :=
  let u := uuid (model st) in
  let id := maxExpressID (model st) + 1 in
  exists prop,
    r.2 = Ok prop /\
    is_single_value s cls name value id prop /\
    properties (model r.1) = <[id := prop]> (properties (model st)) /\
    maxExpressID (model r.1) = id /\
    (forall k, k ∈ change_set (mgr r.1) u <->
               k ∈ change_set (mgr st) u \/ k = id) /\
    log r.1 = log st ++ [DataChanged u id] /\
    maxExpressID (model st) < id /\
    (ids_bounded st -> properties (model st) !! id = None).

(** [pset] is the IfcPropertySet (type code 1451395588) with express ID [id],
    global ID [guid], owner history [oh], the given name, the description when
    it is a non-empty string, and no property. *)
Definition is_pset (s : Schema) (guid : string) (oh : N) (name : string)
    (description : option string) (id : N) (pset : Entity) : Prop :=
  expressID pset = id /\
  type pset = 1451395588 /\
  attrs pset =
    [("GlobalId", typed_object s IfcGloballyUniqueId (PStr guid));
     ("OwnerHistory", handle_object oh);
     ("Name", typed_object s IfcLabel (PStr name));
     ("Description",
       match description with
       | None => VNull
       | Some EmptyString => VNull
       | Some d => typed_object s IfcText (PStr d)
       end);
     ("HasProperties", VArr [])]%string.

(** [rel] is the IfcRelDefinesByProperties (type code 4186316022) with express
    ID [id], global ID [guid] and owner history [oh], without name or
    description, that relates no object yet to the Pset [psetID]. *)
Definition is_pset_rel (s : Schema) (guid : string) (oh : N) (psetID : N)
    (id : N) (rel : Entity) : Prop :=
  expressID rel = id /\
  type rel = 4186316022 /\
  attrs rel =
    [("GlobalId", typed_object s IfcGloballyUniqueId (PStr guid));
     ("OwnerHistory", handle_object oh);
     ("Name", VNull);
     ("Description", VNull);
     ("RelatedObjects", VArr []);
     ("RelatingPropertyDefinition", handle_object psetID)]%string.

(** [r] is the result of creating, storing and returning a Pset and its
    relation under the two express IDs following [maxExpressID]; both refer to
    the stored IfcOwnerHistory (type code 1207048766) with the least key.  The
    two IDs are new to the model when every stored ID is at most
    [maxExpressID]. *)
Definition pset_stored `{Externals} (st : State) (s : Schema) (name : string)
    (description : option string) (r : State * Outcome (Entity * Entity))
  : Prop :=
  let u := uuid (model st) in
  let psetID := maxExpressID (model st) + 1 in
  let relID := maxExpressID (model st) + 2 in
  exists k oh pset rel,
    r.2 = Ok (pset, rel) /\
    properties (model st) !! k = Some oh /\
    type oh = 1207048766 /\
    (forall k' e, properties (model st) !! k' = Some e ->
                  type e = 1207048766 -> k <= k') /\
    is_pset s (UUID_create (guids st)) (expressID oh) name description
      psetID pset /\
    is_pset_rel s (UUID_create (S (guids st))) (expressID oh) psetID
      relID rel /\
    properties (model r.1) =
      <[relID := rel]> (<[psetID := pset]> (properties (model st))) /\
    maxExpressID (model r.1) = relID /\
    psetID ≠ relID /\
    maxExpressID (model st) < psetID /\ maxExpressID (model st) < relID /\
    (forall j, j ∈ change_set (mgr r.1) u <->
               j ∈ change_set (mgr st) u \/ j = psetID \/ j = relID) /\
    log r.1 = log st ++ [DataChanged u psetID; DataChanged u relID] /\
    (ids_bounded st ->
     properties (model st) !! psetID = None /\
     properties (model st) !! relID = None).

(** * Properties *)

(** ** The monad *)

Lemma bind_ok {S A B} (m : ST S A) (k : A -> ST S B) st st' a :
  m st = (st', Ok a) -> bind m k st = k a st'.
Proof. intros E. unfold bind. now rewrite E. Qed.

Lemma for_of_app {S A} (l1 l2 : list A) (body : A -> ST S unit) st st' :
  for_of l1 body st = (st', Ok tt) ->
  for_of (l1 ++ l2) body st = for_of l2 body st'.
Proof.
  revert st. induction l1 as [|x l1 IH]; intros st; simpl.
  - unfold ret. now intros [= ->].
  - unfold bind at 1 2. destruct (body x st) as [s1 [[]|e]]; [|discriminate].
    apply IH.
Qed.

(** ** SimpleRenderer *)

Module RendererFacts.
Import SimpleRenderer.

Lemma update_live w c r2 r comps d :
  live w c r2 r ->
  update comps d w =
    (mkWorld (self w) (allocated w)
       (trace w ++
          match scene comps, camera comps with
          | Some s, Some cam =>
              [TriggerBeforeUpdate; WebGLRender r s cam;
               CSS2DRender r2 s cam; TriggerAfterUpdate]
          | _, _ => [TriggerBeforeUpdate]
          end), Ok tt).
Proof.
  unfold live. intros L. destruct w as [f n t]. simpl in *. subst f.
  unfold update. destruct comps as [[s|] [cam|]]; cbn;
    unfold emit, ret; cbn; now rewrite <- ?app_assoc.
Qed.

Lemma resize_live w c r2 r cw ch :
  live w c r2 r ->
  resize cw ch w =
    (mkWorld (self w) (allocated w)
       (trace w ++ [WebGLSetSize r cw ch; CSS2DSetSize r2 cw ch]), Ok tt).
Proof.
  unfold live. intros L. destruct w as [f n t]. simpl in *. subst f.
  cbn. unfold emit; cbn. now rewrite <- app_assoc.
Qed.

Lemma getSize_live w c r2 r cw ch :
  live w c r2 r -> getSize cw ch w = (w, Ok (cw, ch)).
Proof.
  unfold live. intros L. destruct w as [f n t]. simpl in *. now subst f.
Qed.

Lemma run_op_live w c r2 r o :
  live w c r2 r ->
  exists w', run_op o w = (w', Ok tt) /\ live w' c r2 r.
Proof.
  intros L. destruct o as [comps d|cw ch|cw ch]; simpl.
  - rewrite (update_live _ _ _ _ _ _ L). eauto.
  - rewrite (resize_live _ _ _ _ _ _ L). eauto.
  - unfold bind. rewrite (getSize_live _ _ _ _ _ _ L). eauto.
Qed.

Lemma run_live ops : forall w c r2 r,
  live w c r2 r ->
  exists w', run ops w = (w', Ok tt) /\ live w' c r2 r.
Proof.
  induction ops as [|o ops IH]; intros w c r2 r L.
  - exists w. now split.
  - destruct (run_op_live w c r2 r o L) as (w1 & E1 & L1).
    destruct (IH w1 c r2 r L1) as (w2 & E2 & L2).
    exists w2. split; [|assumption].
    unfold run in *. simpl. now rewrite (bind_ok _ _ _ _ _ E1).
Qed.

Lemma constructor_live container ratio cw ch w :
  exists w' post,
    constructor container ratio cw ch w = (w', Ok tt) /\
    live w' container (allocated w) (S (allocated w)) /\
    trace w' = trace w ++ [NewCSS2DRenderer (allocated w)] ++
               NewWebGLRenderer (S (allocated w)) :: post.
Proof.
  destruct w as [f n t].
  cbv [constructor setupRenderers setupEvents resize new_object set_fields
       emit fields deref bind ret self allocated trace _renderer
       _renderer2D SimpleRenderer.container live].
  eexists. eexists. split; [reflexivity|]. split; [reflexivity|].
  rewrite <- !app_assoc. reflexivity.
Qed.

(** C2, as stated, fails: with no scene to hand, [update] triggers
    beforeUpdate and returns; nothing is rendered and afterUpdate is not
    triggered. *)
Lemma update_without_scene_renders_nothing :
  let w := sample_renderer in
  let w' := (update (mkComponents None (Some 7%nat)) 0 w).1 in
  trace w' = trace w ++ [TriggerBeforeUpdate] /\
  ~ exists r r2 s cam,
      trace w' = trace w ++ [TriggerBeforeUpdate; WebGLRender r s cam;
                             CSS2DRender r2 s cam; TriggerAfterUpdate].
Proof.
  split; [reflexivity|]. intros (r & r2 & s & cam & E).
  vm_compute in E. discriminate E.
Qed.

(** C2, amended: on a live component [update] always triggers beforeUpdate
    first.  When the components hold both a scene and a camera it then
    renders that scene with that camera on the WebGL renderer and on the
    CSS2D renderer, in this order, and triggers afterUpdate; when either is
    missing it does nothing more. *)
Theorem update_forwards_scene_and_camera w c r2 r comps d :
  live w c r2 r ->
  (forall s cam,
      scene comps = Some s -> camera comps = Some cam ->
      update comps d w =
        (mkWorld (self w) (allocated w)
           (trace w ++ [TriggerBeforeUpdate; WebGLRender r s cam;
                        CSS2DRender r2 s cam; TriggerAfterUpdate]), Ok tt)) /\
  (scene comps = None \/ camera comps = None ->
      update comps d w =
        (mkWorld (self w) (allocated w) (trace w ++ [TriggerBeforeUpdate]),
         Ok tt)).
Proof.
  intros L. rewrite (update_live _ _ _ _ _ _ L). split.
  - intros s cam -> ->. reflexivity.
  - intros [-> | ->]; [reflexivity|]. now destruct (scene comps).
Qed.

Lemma update_forwards_scene_and_camera_witness :
  update (mkComponents (Some 5%nat) (Some 6%nat)) 0 sample_renderer =
    (mkWorld (self sample_renderer) (allocated sample_renderer)
       (trace sample_renderer ++
          [TriggerBeforeUpdate; WebGLRender 2%nat 5%nat 6%nat;
           CSS2DRender 1%nat 5%nat 6%nat; TriggerAfterUpdate]), Ok tt).
Proof.
  apply (proj1 (update_forwards_scene_and_camera sample_renderer
                  0%nat 1%nat 2%nat (mkComponents (Some 5%nat) (Some 6%nat)) 0
                  eq_refl) 5%nat 6%nat eq_refl eq_refl).
Defined.

(** C7: the constructor creates one WebGL renderer; after construction and
    after any sequence of update, resize and getSize calls, which all
    return normally, [get] returns that same renderer; after [dispose] it
    returns null. *)
Theorem get_returns_constructed_renderer container ratio cw ch w ops :
  exists r wc w' wd pre post,
    constructor container ratio cw ch w = (wc, Ok tt) /\
    trace wc = trace w ++ pre ++ NewWebGLRenderer r :: post /\
    (allocated w <= r)%nat /\
    get wc = (wc, Ok (Some r)) /\
    run ops wc = (w', Ok tt) /\
    get w' = (w', Ok (Some r)) /\
    dispose w' = (wd, Ok tt) /\
    get wd = (wd, Ok None).
Proof.
  destruct (constructor_live container ratio cw ch w)
    as (wc & post & Ec & Lc & T).
  destruct (run_live ops wc _ _ _ Lc) as (w' & Er & Lr).
  assert (G : forall x, live x container (allocated w) (S (allocated w)) ->
                        get x = (x, Ok (Some (S (allocated w))))).
  { intros [f n t]. unfold live. simpl. now intros ->. }
  exists (S (allocated w)), wc, w'.
  destruct w' as [f' n' t']. unfold live in Lr. simpl in Lr. subst f'.
  eexists. exists [NewCSS2DRenderer (allocated w)], post.
  repeat split; eauto.
Qed.

End RendererFacts.

(** ** saveToIfc *)

Section SaveToIfc.
Context {Api : Type} `{IfcLoader Api}.

Lemma edit_loop m modelID changes : forall (w : Wasm Api),
  for_of changes (fun expressID =>
    match properties m !! expressID with
    | None =>
        try_catch (call (CallDeleteLine modelID expressID)
                        (DeleteLine modelID expressID))
    | Some data =>
        try_catch (call (CallWriteLine modelID data)
                        (WriteLine modelID data))
    end) w =
  (mkWasm (apply_changes m modelID changes (api w))
          (calls w ++ map (edit_call m modelID) changes), Ok tt).
Proof.
  induction changes as [|id changes IH]; intros [a cs]; simpl.
  - unfold ret. now rewrite app_nil_r.
  - unfold bind, apply_changes, apply_edit, edit_call in *. simpl.
    destruct (properties m !! id) as [data|];
      unfold try_catch, call; simpl.
    + destruct (WriteLine modelID data a) as [a' r]. simpl.
      rewrite IH. simpl. now rewrite <- app_assoc.
    + destruct (DeleteLine modelID id a) as [a' r]. simpl.
      rewrite IH. simpl. now rewrite <- app_assoc.
Qed.

(** C1: [saveToIfc] reads the given file into the WASM module, then for
    every express ID recorded in [changeMap[model.uuid]], in order, calls
    DeleteLine when the model has no properties for it and WriteLine with
    the current entity otherwise, and returns what SaveModel gives on the
    module so edited, before closing the model and cleaning up. *)
Theorem saveToIfc_serializes_changes (g : Manager) (m : Model)
    (ifcToSaveOn : list Byte.byte) (w : Wasm Api)
    (modelID : Z) (a1 a3 a4 a5 : Api) (modifiedIFC : list Byte.byte) :
  let changes := default [] (changeMap g !! uuid m) in
  readIfcFile ifcToSaveOn (api w) = (a1, Ok modelID) ->
  SaveModel modelID (apply_changes m modelID changes a1)
    = (a3, Ok modifiedIFC) ->
  CloseModel modelID a3 = (a4, Ok tt) ->
  cleanUp a4 = (a5, Ok tt) ->
  saveToIfc g m ifcToSaveOn w =
    (mkWasm a5
       (calls w ++ CallReadIfcFile ifcToSaveOn ::
          map (edit_call m modelID) changes ++
          [CallSaveModel modelID; CallCloseModel modelID; CallCleanUp]),
     Ok modifiedIFC).
Proof.
  intros changes Eread Esave Eclose Eclean. unfold saveToIfc.
  fold changes. destruct w as [a cs]. simpl in *.
  unfold bind at 1. unfold call at 1. simpl. rewrite Eread.
  unfold bind at 1. rewrite edit_loop. simpl.
  unfold bind at 1. unfold call at 1. simpl. rewrite Esave.
  unfold bind at 1. unfold call at 1. simpl. rewrite Eclose.
  unfold bind at 1. unfold call at 1. simpl. rewrite Eclean.
  unfold ret. f_equal. f_equal.
  rewrite <- !app_assoc. simpl. rewrite <- ?app_assoc. reflexivity.
Qed.

End SaveToIfc.

(** ** Runs on the sample model *)

(** C9: [addPropToPset] looks the express ID up among the handles of
    HasProperties with [includes], which never equates a number with a handle
    object, so a property that is already a member is pushed again: on the
    sample Pset, whose HasProperties is [#11], one call with 11 leaves two
    handles to #11 and a second call leaves three. *)
Theorem addPropToPset_pushes_member_again :
  let HasProperties st :=
    properties (model st) !! 10 ≫= (fun pset => get_field pset "HasProperties") in
  let once := (addPropToPset 10 [11] sample_state).1 in
  let twice := (addPropToPset 10 [11] once).1 in
  HasProperties sample_state = Some (VArr [newHandle 11]) /\
  HasProperties once = Some (VArr [newHandle 11; newHandle 11]) /\
  HasProperties twice = Some (VArr [newHandle 11; newHandle 11; newHandle 11]) /\
  log twice = [PropToPset "model-A" 10 11; DataChanged "model-A" 10;
               PropToPset "model-A" 10 11; DataChanged "model-A" 10].
Proof. repeat split; vm_compute; reflexivity. Qed.

(** C8: [removePset] deletes the properties of the Pset from the model and
    leaves their express IDs out of the change map: on the sample model,
    removing Pset #10 deletes property #11 and registers only the relation
    #12 and the Pset #10, where [removePsetProp] registers the property it
    deletes.  [addElementToPset] likewise pushes onto the relation #12 and
    registers the Pset #10. *)
Theorem removePset_leaves_deleted_properties_unregistered :
  let removed := (@removePset sample_externals [10] sample_state).1 in
  let sibling := (removePsetProp 10 11 sample_state).1 in
  let added := (@addElementToPset sample_externals 10 [8] sample_state).1 in
  properties (model sample_state) !! 11 = Some sample_prop /\
  properties (model removed) !! 11 = None /\
  changeMap (mgr removed) !! "model-A" = Some [12; 10] /\
  log removed = [DataChanged "model-A" 12; PsetRemoved "model-A" 10;
                 DataChanged "model-A" 10] /\
  properties (model sibling) !! 11 = None /\
  changeMap (mgr sibling) !! "model-A" = Some [10; 11] /\
  (properties (model added) !! 12 ≫= (fun rel => get_field rel "RelatedObjects"))
    = Some (VArr [newHandle 7; newHandle 8]) /\
  properties (model added) !! 10 = properties (model sample_state) !! 10 /\
  changeMap (mgr added) !! "model-A" = Some [10].
Proof. repeat split; vm_compute; reflexivity. Qed.

(** C3, as stated, fails: the manager allocates express IDs itself, and
    [newPset] moves [maxExpressID] of the sample model from 12 to 14. *)
Lemma newPset_moves_maxExpressID :
  ~ (forall (E : Externals) (o : Op) (st : State),
        maxExpressID (model (run_op o st).1) = maxExpressID (model st)).
Proof.
  intros C. specialize (C sample_externals (NewPset "Pset_Custom" None) sample_state).
  vm_compute in C. discriminate C.
Qed.

(** C5, as stated, fails: a call that finds a registered listener returns it
    without installing anything.  After the entity #11 has been replaced
    through [setData], [setAttributeListener] still resolves with the event
    registered for the old object, and an assignment to the attribute's value
    stores the value without triggering that event. *)
Lemma returned_listener_not_triggered :
  let replaced :=
    ((setAttributeListener 11 "NominalValue";;; setData [sample_prop])
       sample_state).1 in
  let again := setAttributeListener 11 "NominalValue" replaced in
  let assigned := (assign_value 11 "NominalValue" (PStr "EI90") again.1).1 in
  again.2 = Ok 0%nat /\
  read_value (model assigned) 11 "NominalValue" = Some (PStr "EI90") /\
  log assigned = log replaced /\
  AttributeSet 0%nat (PStr "EI90") ∉ log assigned.
Proof.
  intros replaced again assigned.
  assert (L : log assigned =
              [AttributeSet 0%nat (PStr "EI60"); DataChanged "model-A" 11])
    by (vm_compute; reflexivity).
  repeat split; try (vm_compute; reflexivity).
  rewrite L. intros Hin.
  repeat (apply elem_of_cons in Hin as [Hin|Hin]; [discriminate Hin|]).
  now apply elem_of_nil in Hin.
Qed.

(** ** Attribute listeners *)

Lemma existing_listener_Some g u id a ev :
  existing_listener g u id a = Some ev ->
  is_Some (attributeListeners g !! u).
Proof.
  unfold existing_listener. destruct (attributeListeners g !! u); [eauto|discriminate].
Qed.

Lemma setAttributeListener_existing st id a ev :
  existing_listener (mgr st) (uuid (model st)) id a = Some ev ->
  setAttributeListener id a st = (st, Ok ev).
Proof.
  intros E. destruct (existing_listener_Some _ _ _ _ _ E) as [byID EbyID].
  unfold setAttributeListener, bind, get_state. simpl.
  rewrite EbyID. unfold ret at 1. simpl. rewrite E. reflexivity.
Qed.

Lemma assoc_set_same k v l : assoc k (assoc_set k v l) = Some v.
Proof.
  induction l as [|[k' v'] l IH]; simpl.
  - now rewrite decide_True.
  - destruct (decide (k = k')) as [->|Hne]; simpl.
    + now rewrite decide_True.
    + now rewrite decide_False.
Qed.

Lemma get_field_VObj e a w :
  get_field e a = Some (VObj w) ->
  a ≠ "expressID"%string /\ a ≠ "type"%string /\ assoc a (attrs e) = Some (VObj w).
Proof.
  unfold get_field. repeat case_decide; try discriminate. auto.
Qed.

Lemma get_field_set_attr e a v :
  a ≠ "expressID"%string -> a ≠ "type"%string ->
  get_field (set_attr e a v) a = Some v.
Proof.
  intros H1 H2. unfold get_field. rewrite !decide_False by assumption.
  simpl. apply assoc_set_same.
Qed.

Lemma assign_field_some st id n v e :
  properties (model st) !! id = Some e ->
  assign_field id n v st =
    (mkState (store id (Some (set_attr e n v)) (model st)) (mgr st)
       (events st) (guids st) (log st), Ok tt).
Proof. intros E. unfold assign_field. rewrite E. reflexivity. Qed.

Lemma assign_value_obj st id a v e w :
  properties (model st) !! id = Some e ->
  get_field e a = Some (VObj w) ->
  assign_value id a v st =
    (mkState
       (store id (Some (set_attr e a
          (VObj (mkWrapped (w_schema w) (w_class w) (slot_set (w_slot w) v).1))))
          (model st))
       (mgr st) (events st) (guids st) (log st ++ (slot_set (w_slot w) v).2),
     Ok tt).
Proof.
  intros E F. unfold assign_value, bind, getProperties. rewrite E, F.
  destruct (slot_set (w_slot w) v) as [s sigs] eqn:Es. simpl.
  rewrite (assign_field_some _ _ _ _ _ E).
  destruct (w_slot w); simpl in Es; injection Es as <- <-; simpl.
  - unfold ret. now rewrite app_nil_r.
  - reflexivity.
Qed.

Lemma read_value_installed st id a ev x :
  installed st id a ev x -> read_value (model st) id a = x.
Proof.
  intros (e & s & c & E & F). unfold read_value. rewrite E. simpl. now rewrite F.
Qed.

Lemma setAttributeListener_fresh st id a st1 ev :
  existing_listener (mgr st) (uuid (model st)) id a = None ->
  setAttributeListener id a st = (st1, Ok ev) ->
  exists v,
    read_value (model st) id a = Some v /\
    installed st1 id a ev (Some v) /\
    ev = events st /\
    log st1 = log st ++ [AttributeSet ev v] /\
    uuid (model st1) = uuid (model st) /\
    existing_listener (mgr st1) (uuid (model st)) id a = Some ev.
Proof.
  intros Hnone H. unfold setAttributeListener in H.
  unfold bind at 1 in H. unfold get_state at 1 in H.
  unfold bind at 1 in H.
  set (st0 := (match attributeListeners (mgr st) !! uuid (model st) with
       | Some _ => ret ()
       | None => put_mgr (with_listeners (mgr st) (<[uuid (model st):=∅]> (attributeListeners (mgr st))))
       end st).1).
  assert (E0 : match attributeListeners (mgr st) !! uuid (model st) with
       | Some _ => ret ()
       | None => put_mgr (with_listeners (mgr st) (<[uuid (model st):=∅]> (attributeListeners (mgr st))))
       end st = (st0, Ok tt)).
  { unfold st0. now destruct (attributeListeners (mgr st) !! uuid (model st)). }
  rewrite E0 in H.
  assert (Em : model st0 = model st /\ events st0 = events st /\ log st0 = log st
               /\ existing_listener (mgr st0) (uuid (model st)) id a = None
               /\ is_Some (attributeListeners (mgr st0) !! uuid (model st))).
  { unfold st0. unfold existing_listener in *.
    destruct (attributeListeners (mgr st) !! uuid (model st)) eqn:EL; simpl.
    - rewrite EL. eauto.
    - rewrite lookup_insert_eq. rewrite lookup_empty. eauto. }
  clearbody st0. clear E0. destruct Em as (Em & Ee & El & Ex & [byID EbyID]).
  unfold bind at 1 in H. unfold get_state at 1 in H. rewrite Ex in H.
  unfold bind at 1 in H. unfold getProperties at 1 in H. rewrite Em in H.
  destruct (properties (model st) !! id) as [e|] eqn:Ee0; [|discriminate H].
  destruct (get_field e a) as [[|p|w|l]|] eqn:Ef; try discriminate H.
  { destruct (falsy p); discriminate H. }
  destruct (slot_get (w_slot w)) as [v|] eqn:Ev; [|discriminate H].
  destruct (get_field_VObj _ _ _ Ef) as (Na & Nb & _).
  unfold bind at 1 in H. unfold new_Event at 1 in H.
  unfold bind at 1 in H.
  rewrite (assign_field_some _ _ _ _ e) in H by (simpl; now rewrite Em).
  unfold bind at 1 in H.
  erewrite assign_value_obj in H;
    [|simpl; rewrite Em; apply lookup_insert_eq|apply get_field_set_attr; assumption].
  cbv [bind get_state put_mgr ret] in H. simpl in H.
  injection H as <- <-.
  exists v. repeat split.
  - unfold read_value. rewrite Ee0. simpl. now rewrite Ef.
  - eexists _, _, _. split.
    + simpl. apply lookup_insert_eq.
    + now rewrite get_field_set_attr.
  - assumption.
  - simpl. now rewrite El.
  - simpl. now rewrite Em.
  - unfold existing_listener. simpl. rewrite !lookup_insert_eq. reflexivity.
Qed.

Lemma assign_value_installed st id a ev x v :
  installed st id a ev x ->
  exists st',
    assign_value id a v st = (st', Ok tt) /\
    installed st' id a ev (Some v) /\
    log st' = log st ++ [AttributeSet ev v].
Proof.
  intros (e & s & c & E & F).
  destruct (get_field_VObj _ _ _ F) as (Na & Nb & _).
  eexists. split; [apply (assign_value_obj _ _ _ _ _ _ E F)|]. split.
  - eexists _, _, _. simpl. split; [apply lookup_insert_eq|].
    now rewrite get_field_set_attr.
  - reflexivity.
Qed.

Lemma assignments_installed id a ev vs : forall st x,
  installed st id a ev x ->
  exists st',
    for_of vs (assign_value id a) st = (st', Ok tt) /\
    installed st' id a ev (from_option Some x (last vs)) /\
    log st' = log st ++ map (AttributeSet ev) vs.
Proof.
  induction vs as [|v vs IH]; intros st x I.
  - exists st. simpl. now rewrite app_nil_r.
  - destruct (assign_value_installed _ _ _ _ _ v I) as (s1 & E1 & I1 & L1).
    destruct (IH s1 _ I1) as (s2 & E2 & I2 & L2).
    exists s2. split; [|split].
    + simpl. now rewrite (bind_ok _ _ _ _ _ E1).
    + rewrite last_cons. now destruct (last vs).
    + rewrite L2, L1, <- app_assoc. reflexivity.
Qed.

(** C5, amended: when no listener is registered yet for the model, the
    express ID and the attribute, a call to [setAttributeListener] that
    resolves returns a new event, installs a setter for it on the attribute's
    object, leaves the attribute's value as it was and triggers the event once
    with it.  In the run of assignments that follows the call, each
    assignment to the attribute's value triggers the event with the assigned
    value, and the value read back is the one assigned last.  More generally,
    in whatever state the model's attribute object still carries the setter
    of this event (the entity has not been replaced and no later call has
    defined another setter on the object), an assignment triggers the event
    with the assigned value, stores that value and leaves the setter in
    place.  A call that finds a listener registered, as a second call with
    the same arguments does, returns that listener and changes nothing: it
    installs no setter and triggers no event. *)
Theorem attribute_listener_triggers_on_assignment st id a st1 ev :
  existing_listener (mgr st) (uuid (model st)) id a = None ->
  setAttributeListener id a st = (st1, Ok ev) ->
  (exists v0,
    ev = events st /\
    read_value (model st) id a = Some v0 /\
    read_value (model st1) id a = Some v0 /\
    installed st1 id a ev (Some v0) /\
    log st1 = log st ++ [AttributeSet ev v0] /\
    forall vs, exists st2,
      for_of vs (assign_value id a) st1 = (st2, Ok tt) /\
      log st2 = log st1 ++ map (AttributeSet ev) vs /\
      read_value (model st2) id a = Some (default v0 (last vs))) /\
  (forall st2 x v,
    installed st2 id a ev x ->
    exists st3,
      assign_value id a v st2 = (st3, Ok tt) /\
      log st3 = log st2 ++ [AttributeSet ev v] /\
      read_value (model st3) id a = Some v /\
      installed st3 id a ev (Some v)) /\
  setAttributeListener id a st1 = (st1, Ok ev) /\
  (forall st' ev',
    existing_listener (mgr st') (uuid (model st')) id a = Some ev' ->
    setAttributeListener id a st' = (st', Ok ev')).
Proof.
  intros Hnone H.
  destruct (setAttributeListener_fresh _ _ _ _ _ Hnone H)
    as (v0 & R0 & I1 & Eev & L1 & Eu & Ex).
  split; [|split; [|split]].
  - exists v0. repeat apply conj; try assumption.
    + apply (read_value_installed _ _ _ _ _ I1).
    + intros vs. destruct (assignments_installed id a ev vs st1 _ I1)
        as (st2 & E2 & I2 & L2).
      exists st2. repeat apply conj; try assumption.
      rewrite (read_value_installed _ _ _ _ _ I2).
      now destruct (last vs).
  - intros st2 x v I.
    destruct (assign_value_installed _ _ _ _ _ v I) as (st3 & E3 & I3 & L3).
    exists st3. repeat apply conj; try assumption.
    apply (read_value_installed _ _ _ _ _ I3).
  - apply setAttributeListener_existing. now rewrite Eu.
  - intros st' ev'. apply setAttributeListener_existing.
Qed.

(** C10: once [setAttributeListener] has resolved with an event for a model,
    an express ID and an attribute, a second call with the same arguments
    resolves with the same event and changes nothing, whatever the model
    holds by then: the entity is neither read nor written, and
    [attributeListeners] is as it was. *)
Theorem setAttributeListener_again_returns_same_event st id a st1 ev :
  setAttributeListener id a st = (st1, Ok ev) ->
  forall m' : Model,
    uuid m' = uuid (model st1) ->
    let st1' := mkState m' (mgr st1) (events st1) (guids st1) (log st1) in
    setAttributeListener id a st1' = (st1', Ok ev).
Proof.
  intros H m' Eu st1'. apply setAttributeListener_existing.
  unfold st1'. simpl. rewrite Eu.
  destruct (existing_listener (mgr st) (uuid (model st)) id a) as [ev'|] eqn:Ex.
  - rewrite (setAttributeListener_existing _ _ _ _ Ex) in H.
    now injection H as <- <-.
  - destruct (setAttributeListener_fresh _ _ _ _ _ Ex H)
      as (v0 & _ & _ & _ & _ & Eu1 & Ex1).
    now rewrite Eu1.
Qed.

(** ** Change registration and creation *)

Lemma elem_of_set_add k id s : k ∈ set_add id s <-> k ∈ s \/ k = id.
Proof.
  unfold set_add. case_bool_decide.
  - split; [auto|]. intros [?| ->]; assumption.
  - rewrite elem_of_app, list_elem_of_singleton. tauto.
Qed.

Lemma elem_of_add_all ids : forall k s, k ∈ add_all ids s <-> k ∈ s \/ k ∈ ids.
Proof.
  induction ids as [|id ids IH]; intros k s; simpl.
  - rewrite elem_of_nil. tauto.
  - unfold add_all in *. simpl. rewrite IH, elem_of_set_add, elem_of_cons. tauto.
Qed.

Lemma alter_lookup_insert {A} (f : A -> A) (u : string) (m : gmap string A) x :
  m !! u = Some x -> alter f u m = <[u := f x]> m.
Proof.
  intros E. rewrite <- (insert_id m u x E) at 1. apply alter_insert_eq.
Qed.

Lemma state_eta st :
  mkState (model st) (mgr st) (events st) (guids st) (log st) = st.
Proof. now destruct st. Qed.

Lemma manager_eta g :
  mkManager (selectedModel g) (attributeListeners g) (changeMap g) = g.
Proof. now destruct g. Qed.

Lemma register_loop u ids : forall st s,
  changeMap (mgr st) !! u = Some s ->
  for_of ids (fun id =>
    st <- get_state;;
    put_mgr (with_changeMap (mgr st)
               (alter (set_add id) u (changeMap (mgr st))));;;
    trigger (DataChanged u id)) st =
  (mkState (model st)
     (with_changeMap (mgr st) (<[u := add_all ids s]> (changeMap (mgr st))))
     (events st) (guids st) (log st ++ map (DataChanged u) ids), Ok tt).
Proof.
  induction ids as [|id ids IH]; intros st s E.
  - simpl. unfold ret, with_changeMap. rewrite (insert_id _ _ _ E), app_nil_r.
    now rewrite manager_eta, state_eta.
  - simpl. unfold bind at 1. unfold bind at 1. unfold get_state at 1.
    unfold bind at 1. unfold put_mgr at 1. unfold trigger at 1.
    cbn [model mgr events guids log].
    rewrite (alter_lookup_insert _ _ _ _ E).
    rewrite (IH _ (set_add id s)) by (simpl; apply lookup_insert_eq).
    simpl. unfold with_changeMap. simpl. rewrite insert_insert_eq.
    now rewrite <- app_assoc.
Qed.

Lemma registerChange_eq ids st :
  let u := uuid (model st) in
  registerChange ids st =
    (mkState (model st)
       (with_changeMap (mgr st)
          (<[u := add_all ids (change_set (mgr st) u)]> (changeMap (mgr st))))
       (events st) (guids st) (log st ++ map (DataChanged u) ids), Ok tt).
Proof.
  intros u. unfold registerChange, change_set.
  unfold bind at 1. unfold get_state at 1. fold u.
  unfold bind at 1.
  destruct (changeMap (mgr st) !! u) as [s|] eqn:E.
  - unfold ret at 1. now rewrite (register_loop u ids st s E).
  - unfold put_mgr at 1.
    rewrite (register_loop u ids _ []) by (simpl; apply lookup_insert_eq).
    simpl. unfold with_changeMap. simpl. now rewrite insert_insert_eq.
Qed.

Lemma setData_one data st :
  expressID data ≠ 0 ->
  let u := uuid (model st) in
  let id := expressID data in
  setData [data] st =
    (mkState (store id (Some data) (model st))
       (with_changeMap (mgr st)
          (<[u := set_add id (change_set (mgr st) u)]> (changeMap (mgr st))))
       (events st) (guids st) (log st ++ [DataChanged u id]), Ok tt).
Proof.
  intros Hne u id. unfold setData. simpl.
  rewrite bool_decide_false by assumption.
  unfold bind at 1. unfold bind at 1. unfold setProperties at 1, put_model at 1.
  rewrite registerChange_eq. reflexivity.
Qed.

Lemma setData_cons d ds st :
  setData (d :: ds) st =
    match setData [d] st with
    | (st', Ok _) => setData ds st'
    | (st', Throw e) => (st', Throw e)
    end.
Proof.
  unfold setData. simpl. unfold bind.
  destruct (if bool_decide (expressID d = 0) then _ else _) as [st' [[]|e]];
    reflexivity.
Qed.

Lemma setData_nil st : setData [] st = (st, Ok tt).
Proof. reflexivity. Qed.

Lemma first_key_in (l : list N) :
  l ≠ [] ->
  exists k, foldr (fun k acc => match acc with
                      | None => Some k
                      | Some j => Some (N.min k j)
                      end) None l = Some k /\ k ∈ l.
Proof.
  induction l as [|x l IH]; [congruence|]. intros _. simpl.
  destruct l as [|y l].
  - exists x. simpl. split; [reflexivity|]. apply elem_of_cons; auto.
  - destruct IH as (k & -> & Hk); [congruence|].
    exists (N.min x k). split; [reflexivity|].
    destruct (N.min_spec x k) as [[_ ->]|[_ ->]].
    + apply elem_of_cons; auto.
    + apply elem_of_cons; auto.
Qed.

Lemma first_key_Some {A} (m : gmap N A) :
  m ≠ ∅ -> exists k v, first_key m = Some k /\ m !! k = Some v.
Proof.
  intros Hne. unfold first_key.
  destruct (first_key_in (map_to_list m).*1) as (k & E & Hk).
  - intros E. apply fmap_nil_inv in E. now apply map_to_list_empty_iff in E.
  - apply list_elem_of_fmap in Hk as ([k' v] & -> & Hkv).
    apply elem_of_map_to_list in Hkv. eauto.
Qed.

Lemma getOwnerHistory_state st : (getOwnerHistory st).1 = st.
Proof.
  unfold getOwnerHistory, bind, getAllPropertiesOfType.
  case_decide; [reflexivity|].
  now destruct (first_key _ ≫= _).
Qed.

Lemma getOwnerHistory_found st k e :
  properties (model st) !! k = Some e -> type e = IFCOWNERHISTORY ->
  exists k' oh,
    getOwnerHistory st = (st, Ok (oh, newHandle (expressID oh))) /\
    properties (model st) !! k' = Some oh /\ type oh = IFCOWNERHISTORY.
Proof.
  intros E T. unfold getOwnerHistory, bind, getAllPropertiesOfType.
  set (found := filter _ (properties (model st))).
  assert (Hf : found !! k = Some e).
  { apply map_lookup_filter_Some. auto. }
  rewrite decide_False by (intros E0; rewrite E0 in Hf; discriminate Hf).
  destruct (first_key_Some found) as (k' & oh & -> & Hoh).
  { intros E0. rewrite E0 in Hf. discriminate Hf. }
  simpl. rewrite Hoh. apply map_lookup_filter_Some in Hoh as [Hoh Hty].
  exists k', oh. auto.
Qed.

Lemma fresh_above (m : Model) (id : N) :
  maxExpressID m < id ->
  (forall k, is_Some (properties m !! k) -> k <= maxExpressID m) ->
  properties m !! id = None.
Proof.
  intros Hlt Hall. destruct (properties m !! id) eqn:E; [|reflexivity].
  specialize (Hall id). rewrite E in Hall. specialize (Hall (mk_is_Some _ _ eq_refl)). lia.
Qed.

Lemma newSingleProperty_created st s cls name value :
  schema (model st) = Some s ->
  single_value_created st s cls name value (newSingleProperty cls name value st).
Proof.
  intros Es. unfold newSingleProperty.
  unfold bind at 1. unfold getIFCSchema at 1, bind at 1, get_state at 1.
  rewrite Es. unfold ret at 1.
  unfold bind at 1.
  unfold increaseMaxID at 1. cbv [bind get_state put_model ret].
  cbn [model mgr events guids log maxExpressID uuid schema properties].
  rewrite setData_one by (simpl; lia).
  unfold single_value_created. cbn.
  repeat split.
  - unfold change_set at 1, with_changeMap. cbn [changeMap].
    rewrite lookup_insert_eq. simpl. apply elem_of_set_add. auto.
  - lia.
  - apply fresh_above. lia.
Qed.

Lemma newPset_created `{Externals} st s name description k e :
  schema (model st) = Some s ->
  properties (model st) !! k = Some e -> type e = IFCOWNERHISTORY ->
  pset_created st s name description (newPset name description st).
Proof.
  intros Es Ek Et.
  destruct (getOwnerHistory_found st k e Ek Et) as (k' & oh & Eoh & Ek' & Et').
  unfold newPset.
  unfold bind at 1. unfold getIFCSchema at 1, bind at 1, get_state at 1.
  rewrite Es. unfold ret at 1.
  unfold bind at 1. rewrite Eoh.
  unfold bind at 1. unfold newGUID at 1, bind at 1, getIFCSchema at 1, bind at 1, get_state at 1.
  rewrite Es. unfold ret at 1.
  unfold bind at 1.
  unfold increaseMaxID at 1. unfold bind at 1. unfold get_state at 1. unfold bind at 1. unfold put_model at 1.
  unfold bind at 1. unfold get_state at 1. unfold ret at 1.
  cbn [model mgr events guids log maxExpressID uuid schema properties].
  unfold bind at 1. unfold newGUID at 1, bind at 1, getIFCSchema at 1, bind at 1, get_state at 1.
  cbn [model mgr events guids log maxExpressID uuid schema properties].
  rewrite Es. unfold ret at 1.
  unfold bind at 1.
  unfold increaseMaxID at 1. unfold bind at 1. unfold get_state at 1. unfold bind at 1. unfold put_model at 1.
  unfold bind at 1. unfold get_state at 1. unfold ret at 1.
  cbn [model mgr events guids log maxExpressID uuid schema properties].
  unfold bind at 1.
  rewrite setData_cons, setData_one by (simpl; lia).
  rewrite setData_cons, setData_one by (simpl; lia).
  rewrite setData_nil. unfold ret.
  exists k', oh. split; [assumption|]. split; [assumption|].
  cbn -[N.add]. 
  replace (maxExpressID (model st) + 1 + 1) with (maxExpressID (model st) + 2) by lia.
  repeat apply conj.
  - destruct description as [d|]; reflexivity.
  - reflexivity.
  - reflexivity.
  - lia.
  - lia.
  - lia.
  - unfold change_set at 1, with_changeMap. cbn [changeMap].
    rewrite lookup_insert_eq. simpl. apply elem_of_set_add. left.
    unfold change_set at 1. cbn [changeMap]. rewrite lookup_insert_eq. simpl.
    apply elem_of_set_add. auto.
  - unfold change_set at 1, with_changeMap. cbn [changeMap].
    rewrite lookup_insert_eq. simpl. apply elem_of_set_add. auto.
  - now rewrite <- app_assoc.
  - intros Hall. split; apply fresh_above; (lia || assumption).
Qed.

Lemma keeps_ret {A} (a : A) : keeps_max (ret a).
Proof. now intros st. Qed.

Lemma keeps_throw {A} e : keeps_max (@throw State A e).
Proof. now intros st. Qed.

Lemma keeps_bind {A B} (m : M A) (k : A -> M B) :
  keeps_max m -> (forall a, keeps_max (k a)) -> keeps_max (bind m k).
Proof.
  intros Hm Hk st. unfold bind. specialize (Hm st).
  destruct (m st) as [st' [a|e]]; simpl in *; [|assumption].
  now rewrite Hk.
Qed.

Lemma keeps_for_of {A} (l : list A) (body : A -> M unit) :
  (forall x, keeps_max (body x)) -> keeps_max (for_of l body).
Proof.
  intros Hb. induction l as [|x l IH]; simpl.
  - apply keeps_ret.
  - apply keeps_bind; auto.
Qed.

Lemma keeps_filter_arr f l :
  (forall x, keeps_max (f x)) -> keeps_max (filter_arr f l).
Proof.
  intros Hf. induction l as [|x l IH]; simpl.
  - apply keeps_ret.
  - apply keeps_bind; [auto|]. intros keep.
    apply keeps_bind; [auto|]. intros rest. apply keeps_ret.
Qed.

Lemma keeps_get_state : keeps_max get_state.
Proof. now intros st. Qed.
Lemma keeps_put_mgr g : keeps_max (put_mgr g).
Proof. now intros st. Qed.
Lemma keeps_trigger s : keeps_max (trigger s).
Proof. now intros st. Qed.
Lemma keeps_new_Event : keeps_max new_Event.
Proof. now intros st. Qed.
Lemma keeps_getProperties id : keeps_max (getProperties id).
Proof. now intros st. Qed.
Lemma keeps_setProperties id v : keeps_max (setProperties id v).
Proof. now intros st. Qed.
Lemma keeps_assign_field id n v : keeps_max (assign_field id n v).
Proof. intros st. unfold assign_field. now destruct (properties (model st) !! id). Qed.
Lemma keeps_getAll ty : keeps_max (getAllPropertiesOfType ty).
Proof. now intros st. Qed.

Create HintDb keeps.
#[local] Hint Resolve keeps_ret keeps_throw keeps_get_state keeps_put_mgr
  keeps_trigger keeps_new_Event keeps_getProperties keeps_setProperties
  keeps_assign_field keeps_getAll : keeps.

Ltac keeps :=
  repeat first
    [ solve [auto with keeps]
    | apply keeps_bind; [|intros ?]
    | apply keeps_for_of; intros ?
    | apply keeps_filter_arr; intros ?
    | match goal with
      | |- keeps_max (match ?x with _ => _ end) => destruct x
      | |- keeps_max (let (_, _) := ?x in _) => destruct x
      | |- keeps_max (fun st => _) => intros ?; reflexivity
      end
    | progress cbv zeta ].

Lemma keeps_registerChange ids : keeps_max (registerChange ids).
Proof. unfold registerChange. keeps. Qed.
#[local] Hint Resolve keeps_registerChange : keeps.

Lemma keeps_setData d : keeps_max (setData d).
Proof. unfold setData. keeps. Qed.
#[local] Hint Resolve keeps_setData : keeps.

Lemma keeps_dispose : keeps_max dispose.
Proof. unfold dispose. keeps. Qed.

Lemma keeps_dot_value v : keeps_max (dot_value v).
Proof. unfold dot_value. keeps. Qed.
Lemma keeps_array_of e n : keeps_max (array_of e n).
Proof. unfold array_of. keeps. Qed.
Lemma keeps_delete_key k : keeps_max (delete_key k).
Proof. unfold delete_key. keeps. Qed.
#[local] Hint Resolve keeps_dot_value keeps_array_of keeps_delete_key : keeps.

Lemma keeps_removePset `{Externals} ids : keeps_max (removePset ids).
Proof. unfold removePset. keeps. Qed.

Lemma keeps_removePsetProp p q : keeps_max (removePsetProp p q).
Proof. unfold removePsetProp. keeps. Qed.

Lemma keeps_push_field id n v : keeps_max (push_field id n v).
Proof. unfold push_field. keeps. Qed.
#[local] Hint Resolve keeps_push_field : keeps.

Lemma keeps_addElementToPset `{Externals} p ids : keeps_max (addElementToPset p ids).
Proof. unfold addElementToPset. keeps. Qed.

Lemma keeps_addPropToPset p ids : keeps_max (addPropToPset p ids).
Proof. unfold addPropToPset. keeps. Qed.

Lemma keeps_assign_value id n v : keeps_max (assign_value id n v).
Proof. unfold assign_value. keeps. Qed.
#[local] Hint Resolve keeps_assign_value : keeps.

Lemma keeps_setAttributeListener id a : keeps_max (setAttributeListener id a).
Proof. unfold setAttributeListener. keeps. Qed.

Lemma keeps_discard {A} (m : M A) : keeps_max m -> keeps_max (discard m).
Proof. intros Hm. unfold discard. keeps. Qed.

Lemma keeps_run_op `{Externals} o : creates o = false -> keeps_max (run_op o).
Proof.
  destruct o; simpl; try discriminate; intros _;
    try apply keeps_discard;
    auto using keeps_removePset, keeps_removePsetProp, keeps_addElementToPset,
      keeps_addPropToPset, keeps_setAttributeListener, keeps_dispose
      with keeps.
Qed.

Lemma setData_returns d : forall st, (setData d st).2 = Ok tt.
Proof.
  induction d as [|x d IH]; intros st; [reflexivity|].
  rewrite setData_cons.
  assert (E : (setData [x] st).2 = Ok tt).
  { destruct (decide (expressID x = 0)) as [E0|E0].
    - unfold setData. simpl. now rewrite bool_decide_true.
    - now rewrite setData_one. }
  destruct (setData [x] st) as [st' [[]|e]]; [apply IH|discriminate E].
Qed.

Lemma newSingleProperty_ids cls name value st :
  match newSingleProperty cls name value st with
  | (st', Ok prop) =>
      expressID prop = maxExpressID (model st) + 1 /\
      maxExpressID (model st') = maxExpressID (model st) + 1
  | (st', Throw _) => maxExpressID (model st') = maxExpressID (model st)
  end.
Proof.
  unfold newSingleProperty.
  unfold bind at 1. unfold getIFCSchema at 1, bind at 1, get_state at 1.
  destruct (schema (model st)) as [s|]; [|reflexivity].
  unfold ret at 1. unfold bind at 1.
  unfold increaseMaxID at 1. cbv [bind get_state put_model ret].
  cbn [model mgr events guids log maxExpressID uuid schema properties].
  match goal with |- context [setData ?d ?x] =>
    pose proof (keeps_setData d x) as K; pose proof (setData_returns d x) as R;
    destruct (setData d x) as [st' [[]|e]]
  end; simpl in *; [auto|discriminate R].
Qed.

Lemma newPset_ids `{Externals} name description st :
  match newPset name description st with
  | (st', Ok (pset, rel)) =>
      expressID pset = maxExpressID (model st) + 1 /\
      expressID rel = maxExpressID (model st) + 2 /\
      maxExpressID (model st') = maxExpressID (model st) + 2
  | (st', Throw _) => maxExpressID (model st') = maxExpressID (model st)
  end.
Proof.
  unfold newPset.
  unfold bind at 1. unfold getIFCSchema at 1, bind at 1, get_state at 1.
  destruct (schema (model st)) as [s|] eqn:Es; [|reflexivity].
  unfold ret at 1. unfold bind at 1.
  pose proof (getOwnerHistory_state st) as Eoh.
  destruct (getOwnerHistory st) as [st0 [[oh h]|e]]; simpl in Eoh; subst st0;
    [|reflexivity].
  unfold bind at 1. unfold newGUID at 1, bind at 1, getIFCSchema at 1,
    bind at 1, get_state at 1.
  rewrite Es. unfold ret at 1.
  unfold bind at 1.
  unfold increaseMaxID at 1. unfold bind at 1. unfold get_state at 1.
  unfold bind at 1. unfold put_model at 1.
  unfold bind at 1. unfold get_state at 1. unfold ret at 1.
  cbn [model mgr events guids log maxExpressID uuid schema properties].
  unfold bind at 1. unfold newGUID at 1, bind at 1, getIFCSchema at 1,
    bind at 1, get_state at 1.
  cbn [model mgr events guids log maxExpressID uuid schema properties].
  rewrite Es. unfold ret at 1.
  unfold bind at 1.
  unfold increaseMaxID at 1. unfold bind at 1. unfold get_state at 1.
  unfold bind at 1. unfold put_model at 1.
  unfold bind at 1. unfold get_state at 1. unfold ret at 1.
  cbn [model mgr events guids log maxExpressID uuid schema properties].
  unfold bind at 1.
  match goal with |- context [setData ?d ?x] =>
    pose proof (keeps_setData d x) as K; pose proof (setData_returns d x) as R;
    destruct (setData d x) as [st' [[]|e]]
  end; simpl in *; [|discriminate R].
  rewrite K. repeat apply conj; lia.
Qed.

(** ** The claims about creation and bookkeeping *)

(** C3, amended: the manager does its own express-ID bookkeeping.  [newPset]
    gives the Pset and the relation the two IDs following
    [model.ifcMetadata.maxExpressID] and leaves it raised by two;
    [newSingleProperty], behind the three single-value constructors, gives the
    property the next ID and leaves it raised by one; when they throw, and in
    every other operation of the manager, [maxExpressID] is left as it was. *)
Theorem maxExpressID_bookkeeping `{Externals} :
  (forall name description st,
      match newPset name description st with
      | (st', Ok (pset, rel)) =>
          expressID pset = maxExpressID (model st) + 1 /\
          expressID rel = maxExpressID (model st) + 2 /\
          maxExpressID (model st') = maxExpressID (model st) + 2
      | (st', Throw _) => maxExpressID (model st') = maxExpressID (model st)
      end) /\
  (forall cls name value st,
      match newSingleProperty cls name value st with
      | (st', Ok prop) =>
          expressID prop = maxExpressID (model st) + 1 /\
          maxExpressID (model st') = maxExpressID (model st) + 1
      | (st', Throw _) => maxExpressID (model st') = maxExpressID (model st)
      end) /\
  (forall o st,
      creates o = false ->
      maxExpressID (model (run_op o st).1) = maxExpressID (model st)).
Proof.
  split; [|split].
  - intros. apply newPset_ids.
  - intros. apply newSingleProperty_ids.
  - intros o st Hc. now apply keeps_run_op.
Qed.

Lemma maxExpressID_bookkeeping_witness :
  maxExpressID
    (model (@run_op sample_externals (RemovePset [10]) sample_state).1) =
  maxExpressID (model sample_state).
Proof.
  apply (proj2 (proj2 (@maxExpressID_bookkeeping sample_externals))
           (RemovePset [10]) sample_state eq_refl).
Defined.

(** ** The created entities *)

Lemma first_key_none (l : list N) :
  foldr (fun k acc => match acc with
                      | None => Some k
                      | Some j => Some (N.min k j)
                      end) None l = None -> l = [].
Proof.
  destruct l as [|x l]; [reflexivity|]. simpl.
  now destruct (foldr _ None l).
Qed.

Lemma first_key_least (l : list N) : forall k,
  foldr (fun k acc => match acc with
                      | None => Some k
                      | Some j => Some (N.min k j)
                      end) None l = Some k ->
  forall j, j ∈ l -> k <= j.
Proof.
  induction l as [|x l IH]; intros k E j Hj.
  - now apply elem_of_nil in Hj.
  - simpl in E.
    destruct (foldr _ None l) as [m|] eqn:El.
    + injection E as <-. apply elem_of_cons in Hj as [->|Hj].
      * apply N.le_min_l.
      * specialize (IH m eq_refl j Hj). pose proof (N.le_min_r x m). lia.
    + injection E as <-. apply first_key_none in El. subst l.
      apply elem_of_cons in Hj as [->|Hj]; [lia|].
      now apply elem_of_nil in Hj.
Qed.

(** [getOwnerHistory] hands out the stored IfcOwnerHistory with the least
    key, and a handle to its express ID. *)
Lemma getOwnerHistory_least st st' oh h :
  getOwnerHistory st = (st', Ok (oh, h)) ->
  st' = st /\ h = newHandle (expressID oh) /\
  type oh = IFCOWNERHISTORY /\
  exists k,
    properties (model st) !! k = Some oh /\
    forall k' e, properties (model st) !! k' = Some e ->
                 type e = IFCOWNERHISTORY -> k <= k'.
Proof.
  unfold getOwnerHistory, bind, getAllPropertiesOfType.
  set (found := filter _ (properties (model st))).
  case_decide as Hf; [discriminate|].
  destruct (first_key found) as [k|] eqn:Ek; simpl; [|discriminate].
  destruct (found !! k) as [e|] eqn:Ee; simpl; [|discriminate].
  intros [= <- <- <-].
  apply map_lookup_filter_Some in Ee as [Ee Te]. simpl in Te.
  split; [reflexivity|]. split; [reflexivity|]. split; [assumption|].
  exists k. split; [assumption|]. intros k' e' Ee' Te'.
  apply (first_key_least _ _ Ek).
  apply list_elem_of_fmap. exists (k', e'). split; [reflexivity|].
  apply elem_of_map_to_list. apply map_lookup_filter_Some. auto.
Qed.

Lemma newSingleProperty_stored st s cls name value :
  schema (model st) = Some s ->
  single_value_stored st s cls name value (newSingleProperty cls name value st).
Proof.
  intros Es. unfold newSingleProperty.
  unfold bind at 1. unfold getIFCSchema at 1, bind at 1, get_state at 1.
  rewrite Es. unfold ret at 1.
  unfold bind at 1.
  unfold increaseMaxID at 1. cbv [bind get_state put_model ret].
  cbn [model mgr events guids log maxExpressID uuid schema properties].
  rewrite setData_one by (simpl; lia).
  unfold single_value_stored. eexists. cbn -[N.add change_set].
  split; [reflexivity|]. split; [repeat split|].
  split; [reflexivity|]. split; [reflexivity|]. split; [|split; [reflexivity|]].
  - intros k. unfold change_set at 1, with_changeMap. cbn [changeMap].
    rewrite lookup_insert_eq. simpl. apply elem_of_set_add.
  - split; [lia|]. intros Hb. apply fresh_above; [lia|assumption].
Qed.

Lemma newPset_stored `{Externals} st s name description k e :
  schema (model st) = Some s ->
  properties (model st) !! k = Some e -> type e = IFCOWNERHISTORY ->
  pset_stored st s name description (newPset name description st).
Proof.
  intros Es Ek Et.
  destruct (getOwnerHistory_found st k e Ek Et) as (k' & oh & Eoh & _ & _).
  destruct (getOwnerHistory_least _ _ _ _ Eoh) as (_ & _ & Toh & k0 & Ek0 & Hk0).
  unfold newPset.
  unfold bind at 1. unfold getIFCSchema at 1, bind at 1, get_state at 1.
  rewrite Es. unfold ret at 1.
  unfold bind at 1. rewrite Eoh.
  unfold bind at 1. unfold newGUID at 1, bind at 1, getIFCSchema at 1,
    bind at 1, get_state at 1.
  rewrite Es. unfold ret at 1.
  unfold bind at 1.
  unfold increaseMaxID at 1. unfold bind at 1. unfold get_state at 1.
  unfold bind at 1. unfold put_model at 1.
  unfold bind at 1. unfold get_state at 1. unfold ret at 1.
  cbn [model mgr events guids log maxExpressID uuid schema properties].
  unfold bind at 1. unfold newGUID at 1, bind at 1, getIFCSchema at 1,
    bind at 1, get_state at 1.
  cbn [model mgr events guids log maxExpressID uuid schema properties].
  rewrite Es. unfold ret at 1.
  unfold bind at 1.
  unfold increaseMaxID at 1. unfold bind at 1. unfold get_state at 1.
  unfold bind at 1. unfold put_model at 1.
  unfold bind at 1. unfold get_state at 1. unfold ret at 1.
  cbn [model mgr events guids log maxExpressID uuid schema properties].
  unfold bind at 1.
  rewrite setData_cons, setData_one by (simpl; lia).
  rewrite setData_cons, setData_one by (simpl; lia).
  rewrite setData_nil. unfold ret.
  unfold pset_stored. exists k0, oh. eexists _, _.
  cbn -[N.add change_set].
  replace (maxExpressID (model st) + 1 + 1) with (maxExpressID (model st) + 2)
    by lia.
  split; [reflexivity|]. split; [assumption|]. split; [assumption|].
  split; [assumption|].
  split; [split; [reflexivity|split; [reflexivity|]]|].
  { now destruct description as [[|c d]|]. }
  split; [repeat split|].
  split; [reflexivity|]. split; [reflexivity|].
  split; [lia|]. split; [lia|]. split; [lia|].
  split; [|split].
  - intros j. unfold change_set at 1, with_changeMap. cbn [changeMap].
    rewrite lookup_insert_eq. simpl. rewrite elem_of_set_add.
    unfold change_set at 1. cbn [changeMap]. rewrite lookup_insert_eq. simpl.
    rewrite elem_of_set_add. tauto.
  - now rewrite <- app_assoc.
  - intros Hall. split; apply fresh_above; (lia || assumption).
Qed.

Lemma number_prim_whole z : number_prim (inject_Z z) = PNum z.
Proof.
  unfold number_prim.
  rewrite inject_Z_Qred. reflexivity.
Qed.

Lemma number_prim_eq x y : number_prim x = number_prim y <-> (x == y)%Q.
Proof.
  split.
  - intros E. rewrite <- (Qred_correct x), <- (Qred_correct y).
    unfold number_prim in E. cbv zeta in E.
    destruct (Qred x) as [nx dx], (Qred y) as [ny dy]. simpl in E.
    repeat case_decide; try discriminate E; subst.
    + injection E as ->. reflexivity.
    + injection E as -> ->. reflexivity.
  - intros E. unfold number_prim. now rewrite (Qred_complete _ _ E).
Qed.

(** C4, as stated, fails: the two express IDs are the ones following
    [maxExpressID], whether or not the model holds entities there.  Once
    [setData] has stored entities #13 and #14 in the sample model, whose
    [maxExpressID] is still 12, [newPset] resolves with a Pset and a relation
    carrying these two IDs and stores them in place of the entities held
    there. *)
Lemma newPset_takes_ids_of_stored_entities :
  let held13 := mkEntity 13 IFCPROPERTYSINGLEVALUE [] in
  let held14 := mkEntity 14 IFCPROPERTYSINGLEVALUE [] in
  let st := (setData [held13; held14] sample_state).1 in
  let r := @newPset sample_externals "Pset_Custom" None st in
  schema (model st) = Some IFC4 /\
  properties (model st) !! 5 = Some sample_ownerHistory /\
  type sample_ownerHistory = IFCOWNERHISTORY /\
  properties (model st) !! 13 = Some held13 /\
  properties (model st) !! 14 = Some held14 /\
  exists pset rel,
    r.2 = Ok (pset, rel) /\
    expressID pset = 13 /\ expressID rel = 14 /\
    properties (model r.1) !! 13 = Some pset /\
    properties (model r.1) !! 14 = Some rel /\
    pset <> held13 /\ rel <> held14.
Proof.
  intros held13 held14 st r.
  repeat (split; [vm_compute; reflexivity|]).
  eexists _, _. split; [vm_compute; reflexivity|].
  repeat (split; [vm_compute; reflexivity|]).
  split; discriminate.
Qed.

(** C4, amended: on a model with a schema and an OwnerHistory entity,
    [newPset] resolves with the pair of a new IfcPropertySet and a new
    IfcRelDefinesByProperties.  The Pset has a new global ID, a handle to the
    first stored IfcOwnerHistory, the given name as an IfcLabel, the
    description as an IfcText when a non-empty one is given and null
    otherwise, and an empty property list.  The relation has the next global
    ID, the same owner history, no name, no description, no related object,
    and a handle to the Pset.  Their express IDs are [maxExpressID + 1] and
    [maxExpressID + 2]: distinct, above [maxExpressID], and not in use before
    provided every stored express ID is at most [maxExpressID].  Both are
    stored under their IDs, [maxExpressID] is raised by two, and exactly the
    two IDs are added to the changed IDs of the model, with onDataChanged
    triggered for one and then the other. *)
Theorem newPset_creates_pset_and_relation `{Externals} st s name description
    k ownerHistory :
  schema (model st) = Some s ->
  properties (model st) !! k = Some ownerHistory ->
  type ownerHistory = IFCOWNERHISTORY ->
  pset_stored st s name description (newPset name description st).
Proof. intros Es Ek Et. exact (newPset_stored st s _ _ k _ Es Ek Et). Qed.

Lemma newPset_creates_pset_and_relation_witness :
  @pset_stored sample_externals sample_state IFC4 "Pset_Custom"
    (Some "made by hand")
    (@newPset sample_externals "Pset_Custom" (Some "made by hand") sample_state).
Proof.
  apply (@newPset_creates_pset_and_relation sample_externals sample_state IFC4
           "Pset_Custom" (Some "made by hand") 5 sample_ownerHistory);
    reflexivity.
Defined.

(** C6, as stated, fails: the express ID is the one following
    [maxExpressID], whether or not the model holds an entity there.  Once
    [setData] has stored an entity #13 in the sample model, whose
    [maxExpressID] is still 12, [newSingleStringProperty] returns a property
    with express ID 13 and stores it in place of that entity. *)
Lemma newSingleProperty_takes_id_of_stored_entity :
  let held13 := mkEntity 13 IFCPROPERTYSET [] in
  let st := (setData [held13] sample_state).1 in
  let r := newSingleStringProperty StrIfcLabel "Finish" "Paint" st in
  schema (model st) = Some IFC4 /\
  properties (model st) !! 5 = Some sample_ownerHistory /\
  type sample_ownerHistory = IFCOWNERHISTORY /\
  properties (model st) !! 13 = Some held13 /\
  exists prop,
    r.2 = Ok prop /\
    expressID prop = 13 /\
    properties (model r.1) !! 13 = Some prop /\
    prop <> held13.
Proof.
  intros held13 st r.
  repeat (split; [vm_compute; reflexivity|]).
  eexists. split; [vm_compute; reflexivity|].
  repeat (split; [vm_compute; reflexivity|]).
  discriminate.
Qed.

(** C6, amended: on a model with a schema, each of [newSingleStringProperty],
    [newSingleNumericProperty] and [newSingleBooleanProperty] returns a new
    IfcPropertySingleValue whose Name is the given name as an IfcIdentifier,
    whose NominalValue is the object of the named class (IfcText, IfcLabel or
    IfcIdentifier; IfcInteger or IfcReal; IfcBoolean or IfcLogical)
    constructed from the given value, and whose Description and Unit are
    null.  Its express ID is [maxExpressID + 1], which is above
    [maxExpressID] and not in use before provided every stored express ID is
    at most [maxExpressID].  The property is stored under that ID,
    [maxExpressID] is raised by one, and exactly that ID is added to the
    changed IDs of the model, with onDataChanged triggered for it.  A number
    is held as it is given: equal numbers, and only those, give the same
    value, and a whole number is held as that integer. *)
Theorem newSingleProperty_creates_property st s name :
  schema (model st) = Some s ->
  (forall value, single_value_stored st s IfcText name (PStr value)
                   (newSingleStringProperty StrIfcText name value st)) /\
  (forall value, single_value_stored st s IfcLabel name (PStr value)
                   (newSingleStringProperty StrIfcLabel name value st)) /\
  (forall value, single_value_stored st s IfcIdentifier name (PStr value)
                   (newSingleStringProperty StrIfcIdentifier name value st)) /\
  (forall value, single_value_stored st s IfcInteger name (number_prim value)
                   (newSingleNumericProperty NumIfcInteger name value st)) /\
  (forall value, single_value_stored st s IfcReal name (number_prim value)
                   (newSingleNumericProperty NumIfcReal name value st)) /\
  (forall value, single_value_stored st s IfcBoolean name (PBool value)
                   (newSingleBooleanProperty BoolIfcBoolean name value st)) /\
  (forall value, single_value_stored st s IfcLogical name (PBool value)
                   (newSingleBooleanProperty BoolIfcLogical name value st)) /\
  (forall x y, number_prim x = number_prim y <-> (x == y)%Q) /\
  (forall z, number_prim (inject_Z z) = PNum z).
Proof.
  intros Es.
  repeat (split; [intros value; apply (newSingleProperty_stored _ _ _ _ _ Es)|]).
  split; [apply number_prim_eq|apply number_prim_whole].
Qed.

Lemma newSingleProperty_creates_property_witness :
  single_value_stored sample_state IFC4 IfcReal "Width" (PFrac (5 # 2))
    (newSingleNumericProperty NumIfcReal "Width" (10 # 4) sample_state).
Proof.
  apply (proj1 (proj2 (proj2 (proj2 (proj2
           (newSingleProperty_creates_property sample_state IFC4 "Width"
              eq_refl))))) (10 # 4)%Q).
Defined.

(** ** The theorems at work on the sample model *)

Lemma saveToIfc_serializes_changes_witness :
  let st := (removePsetProp 10 11 sample_state).1 in
  let file := mkWasm (properties sample_model) [] in
  exists a modifiedIFC,
    @saveToIfc _ sample_loader (mgr st) (model st) [] file =
      (mkWasm a
         (calls file ++ CallReadIfcFile [] ::
            map (edit_call (model st) 0%Z)
                (default [] (changeMap (mgr st) !! uuid (model st))) ++
            [CallSaveModel 0%Z; CallCloseModel 0%Z; CallCleanUp]),
       Ok modifiedIFC) /\
    default [] (changeMap (mgr st) !! uuid (model st)) = [10; 11] /\
    edit_call (model st) 0%Z 11 = CallDeleteLine 0%Z 11.
Proof.
  intros st file. eexists. eexists. split; [|split].
  - eapply (@saveToIfc_serializes_changes _ sample_loader (mgr st) (model st)
              [] file 0%Z (properties sample_model)); reflexivity.
  - vm_compute. reflexivity.
  - vm_compute. reflexivity.
Defined.

Lemma attribute_listener_triggers_on_assignment_witness :
  let st1 := (setAttributeListener 11 "NominalValue" sample_state).1 in
  (exists v0,
    0%nat = events sample_state /\
    read_value (model sample_state) 11 "NominalValue" = Some v0 /\
    read_value (model st1) 11 "NominalValue" = Some v0 /\
    installed st1 11 "NominalValue" 0%nat (Some v0) /\
    log st1 = log sample_state ++ [AttributeSet 0%nat v0] /\
    forall vs, exists st2,
      for_of vs (assign_value 11 "NominalValue") st1 = (st2, Ok tt) /\
      log st2 = log st1 ++ map (AttributeSet 0%nat) vs /\
      read_value (model st2) 11 "NominalValue" = Some (default v0 (last vs))) /\
  (forall st2 x v,
    installed st2 11 "NominalValue" 0%nat x ->
    exists st3,
      assign_value 11 "NominalValue" v st2 = (st3, Ok tt) /\
      log st3 = log st2 ++ [AttributeSet 0%nat v] /\
      read_value (model st3) 11 "NominalValue" = Some v /\
      installed st3 11 "NominalValue" 0%nat (Some v)) /\
  setAttributeListener 11 "NominalValue" st1 = (st1, Ok 0%nat) /\
  (forall st' ev',
    existing_listener (mgr st') (uuid (model st')) 11 "NominalValue" = Some ev' ->
    setAttributeListener 11 "NominalValue" st' = (st', Ok ev')).
Proof.
  intros st1.
  apply (attribute_listener_triggers_on_assignment sample_state 11
           "NominalValue" st1 0%nat).
  - vm_compute. reflexivity.
  - vm_compute. reflexivity.
Defined.

Lemma setAttributeListener_again_returns_same_event_witness :
  let st1 := (setAttributeListener 11 "NominalValue" sample_state).1 in
  let emptied := mkModel "model-A" (Some IFC4) 12 ∅ in
  let st1' := mkState emptied (mgr st1) (events st1) (guids st1) (log st1) in
  setAttributeListener 11 "NominalValue" st1' = (st1', Ok 0%nat).
Proof.
  intros st1 emptied st1'.
  apply (setAttributeListener_again_returns_same_event sample_state 11
           "NominalValue" st1 0%nat); vm_compute; reflexivity.
Defined.

(** * Further properties *)

(** ** SimpleRenderer: composition, disposal, construction *)

Module RendererMore.
Import SimpleRenderer RendererTrace RendererFacts.

Lemma run_op_calls w c r2 r o :
  live w c r2 r ->
  run_op o w =
    (mkWorld (self w) (allocated w) (trace w ++ op_calls r2 r o), Ok tt).
Proof.
  intros L. destruct o as [comps d|cw ch|cw ch]; simpl.
  - now rewrite (update_live _ _ _ _ _ _ L).
  - now rewrite (resize_live _ _ _ _ _ _ L).
  - unfold bind. rewrite (getSize_live _ _ _ _ _ _ L). unfold ret.
    rewrite app_nil_r. now destruct w.
Qed.

(** X27: Any sequence of update, resize and getSize calls on a live component
    returns normally, leaves the fields alone, creates no object, and makes
    exactly the calls of its operations, one operation after the other:
    beforeUpdate for every update, followed by the WebGL render, the CSS2D
    render of the same scene and camera and afterUpdate when both are there;
    the two setSize calls for every resize; nothing for getSize. *)
Theorem run_makes_the_calls_of_its_operations ops : forall w c r2 r,
  live w c r2 r ->
  run ops w =
    (mkWorld (self w) (allocated w)
       (trace w ++ concat (map (op_calls r2 r) ops)), Ok tt).
Proof.
  induction ops as [|o ops IH]; intros w c r2 r L.
  - simpl. unfold run, ret. simpl. rewrite app_nil_r. now destruct w.
  - unfold run in *. simpl.
    rewrite (bind_ok _ _ _ _ _ (run_op_calls w c r2 r o L)).
    rewrite (IH _ c r2 r) by exact L. simpl. now rewrite <- app_assoc.
Qed.

Lemma run_makes_the_calls_of_its_operations_witness :
  run [Update (mkComponents (Some 5%nat) (Some 6%nat)) 0; GetSize 800 600;
       Update (mkComponents None (Some 6%nat)) 0; Resize 640 480]
      sample_renderer =
    (mkWorld (self sample_renderer) (allocated sample_renderer)
       (trace sample_renderer ++
          [TriggerBeforeUpdate; WebGLRender 2%nat 5%nat 6%nat;
           CSS2DRender 1%nat 5%nat 6%nat; TriggerAfterUpdate;
           TriggerBeforeUpdate;
           WebGLSetSize 2%nat 640 480; CSS2DSetSize 1%nat 640 480]), Ok tt).
Proof.
  apply (run_makes_the_calls_of_its_operations
           [Update (mkComponents (Some 5%nat) (Some 6%nat)) 0; GetSize 800 600;
            Update (mkComponents None (Some 6%nat)) 0; Resize 640 480]
           sample_renderer 0%nat 1%nat 2%nat eq_refl).
Defined.

(** X28: [dispose] on a live component detaches the canvas of the WebGL renderer,
    disposes that renderer and nulls the three fields; it leaves the CSS2D
    overlay attached and the window resize listener registered (no call
    removes them). *)
Theorem dispose_releases_the_webgl_renderer_only w c r2 r :
  live w c r2 r ->
  dispose w =
    (mkWorld (mkFields None None None) (allocated w)
       (trace w ++ [RemoveDomElement r; DisposeRenderer r]), Ok tt).
Proof.
  unfold live. intros L. destruct w as [f n t]. simpl in *. subst f.
  cbv [dispose bind fields deref ret emit set_fields self allocated trace
       _renderer]. now rewrite <- app_assoc.
Qed.

Lemma dispose_releases_the_webgl_renderer_only_witness :
  dispose sample_renderer =
    (mkWorld (mkFields None None None) (allocated sample_renderer)
       (trace sample_renderer ++
          [RemoveDomElement 2%nat; DisposeRenderer 2%nat]), Ok tt).
Proof.
  apply (dispose_releases_the_webgl_renderer_only sample_renderer
           0%nat 1%nat 2%nat eq_refl).
Defined.

(** X29: After [dispose] the component is unusable: [resize], [getSize], a second
    [dispose] and an [update] that has a scene and a camera all throw a
    TypeError on the nulled fields, the update after having triggered
    beforeUpdate; an [update] without scene or camera still returns
    normally; [get] returns null. *)
Theorem use_after_dispose_throws w :
  disposed w ->
  (forall cw ch, resize cw ch w = (w, Throw TypeError)) /\
  (forall cw ch, getSize cw ch w = (w, Throw TypeError)) /\
  dispose w = (w, Throw TypeError) /\
  get w = (w, Ok None) /\
  (forall s cam d,
      update (mkComponents (Some s) (Some cam)) d w =
        (mkWorld (self w) (allocated w) (trace w ++ [TriggerBeforeUpdate]),
         Throw TypeError)) /\
  (forall comps d,
      scene comps = None \/ camera comps = None ->
      update comps d w =
        (mkWorld (self w) (allocated w) (trace w ++ [TriggerBeforeUpdate]),
         Ok tt)).
Proof.
  unfold disposed. intros D. destruct w as [f n t]. simpl in *. subst f.
  repeat apply conj; try reflexivity.
  intros [[s|] [cam|]] d [E|E]; try discriminate E; reflexivity.
Qed.

Lemma use_after_dispose_throws_witness :
  resize 640 480 (dispose sample_renderer).1 =
    ((dispose sample_renderer).1, Throw TypeError).
Proof.
  apply (proj1 (use_after_dispose_throws (dispose sample_renderer).1 eq_refl)).
Defined.

(** X30: The constructor creates the CSS2D renderer and then the WebGL renderer,
    sets the pixel ratio of the latter to the device's ratio capped at 2,
    appends both canvases to the container, registers the window resize
    listener and sizes both renderers to the container. *)
Theorem constructor_caps_pixel_ratio container ratio cw ch w :
  let r2 := allocated w in
  let r := S (allocated w) in
  constructor container ratio cw ch w =
    (mkWorld (mkFields (Some container) (Some r2) (Some r))
       (S (S (allocated w)))
       (trace w ++
          [NewCSS2DRenderer r2; NewWebGLRenderer r;
           SetPixelRatio r (Qmin ratio 2); SetLocalClipping r;
           AppendChild container r; StyleOverlay r2; AppendChild container r2;
           OnWindowResize; WebGLSetSize r cw ch; CSS2DSetSize r2 cw ch]),
     Ok tt) /\
  (Qmin ratio 2 <= 2)%Q /\ (Qmin ratio 2 <= ratio)%Q /\
  (Qmin ratio 2 == ratio \/ Qmin ratio 2 == 2).
Proof.
  intros r2 r. split; [|split; [|split]].
  - destruct w as [f n t].
    cbv [constructor setupRenderers setupEvents resize new_object set_fields
         emit fields deref bind ret self allocated trace _renderer
         _renderer2D SimpleRenderer.container r2 r].
    rewrite <- !app_assoc. reflexivity.
  - apply Q.le_min_r.
  - apply Q.le_min_l.
  - destruct (Q.min_spec ratio 2) as [[_ E]|[_ E]]; auto.
Qed.

End RendererMore.

(** ** saveToIfc: failures of the WASM module *)

Section SaveToIfcFailures.
Context {Api : Type} `{IfcLoader Api}.

(** X22: When [readIfcFile] throws, [saveToIfc] throws the same error and makes no
    other call on the module: no line is edited, nothing is saved, and neither
    CloseModel nor cleanUp is called. *)
Theorem saveToIfc_read_failure (g : Manager) (m : Model)
    (ifcToSaveOn : list Byte.byte) (w : Wasm Api) (a1 : Api) (e : Error) :
  readIfcFile ifcToSaveOn (api w) = (a1, Throw e) ->
  saveToIfc g m ifcToSaveOn w =
    (mkWasm a1 (calls w ++ [CallReadIfcFile ifcToSaveOn]), Throw e).
Proof.
  intros Eread. unfold saveToIfc. destruct w as [a cs]. simpl in *.
  unfold bind at 1. unfold call at 1. simpl. now rewrite Eread.
Qed.

(** X23: When SaveModel throws after the edits, [saveToIfc] throws the same error
    at once: the model it opened is not closed and cleanUp is not called. *)
Theorem saveToIfc_save_failure (g : Manager) (m : Model)
    (ifcToSaveOn : list Byte.byte) (w : Wasm Api)
    (modelID : Z) (a1 a3 : Api) (e : Error) :
  let changes := default [] (changeMap g !! uuid m) in
  readIfcFile ifcToSaveOn (api w) = (a1, Ok modelID) ->
  SaveModel modelID (apply_changes m modelID changes a1) = (a3, Throw e) ->
  saveToIfc g m ifcToSaveOn w =
    (mkWasm a3
       (calls w ++ CallReadIfcFile ifcToSaveOn ::
          map (edit_call m modelID) changes ++ [CallSaveModel modelID]),
     Throw e).
Proof.
  intros changes Eread Esave. unfold saveToIfc.
  fold changes. destruct w as [a cs]. simpl in *.
  unfold bind at 1. unfold call at 1. simpl. rewrite Eread.
  unfold bind at 1. rewrite edit_loop. simpl.
  unfold bind at 1. unfold call at 1. simpl. rewrite Esave.
  f_equal. f_equal. rewrite <- !app_assoc. reflexivity.
Qed.

End SaveToIfcFailures.

Lemma saveToIfc_read_failure_witness :
  @saveToIfc _ picky_loader fresh_manager sample_model [Byte.x00]
    (mkWasm ∅ []) =
  (mkWasm ∅ [CallReadIfcFile [Byte.x00]], Throw ApiError).
Proof.
  apply (@saveToIfc_read_failure _ picky_loader fresh_manager sample_model
           [Byte.x00] (mkWasm ∅ []) ∅ ApiError eq_refl).
Defined.

Lemma saveToIfc_save_failure_witness :
  @saveToIfc _ picky_loader fresh_manager sample_model [Byte.x49]
    (mkWasm ∅ []) =
  (mkWasm ∅ [CallReadIfcFile [Byte.x49]; CallSaveModel 0%Z], Throw ApiError).
Proof.
  apply (@saveToIfc_save_failure _ picky_loader fresh_manager sample_model
           [Byte.x49] (mkWasm ∅ []) 0%Z ∅ ∅ ApiError); reflexivity.
Defined.

(** ** Frame rules for the manager's monad *)

Section Frame.
Context (P : State -> State -> Prop).
Hypothesis P_refl : forall st, P st st.
Hypothesis P_trans : forall a b c, P a b -> P b c -> P a c.

Lemma respects_ret {A} (a : A) : respects P (ret a).
Proof. intros st. apply P_refl. Qed.

Lemma respects_throw {A} e : respects P (@throw State A e).
Proof. intros st. apply P_refl. Qed.

Lemma respects_bind {A B} (m : M A) (k : A -> M B) :
  respects P m -> (forall a, respects P (k a)) -> respects P (bind m k).
Proof.
  intros Hm Hk st. unfold bind. specialize (Hm st).
  destruct (m st) as [st' [a|e]]; simpl in *; [|assumption].
  eapply P_trans; [exact Hm|apply Hk].
Qed.

Lemma respects_for_of {A} (l : list A) (body : A -> M unit) :
  (forall x, respects P (body x)) -> respects P (for_of l body).
Proof.
  intros Hb. induction l as [|x l IH]; simpl.
  - apply respects_ret.
  - apply respects_bind; auto.
Qed.

Lemma respects_filter_arr f l :
  (forall x, respects P (f x)) -> respects P (filter_arr f l).
Proof.
  intros Hf. induction l as [|x l IH]; simpl.
  - apply respects_ret.
  - apply respects_bind; [auto|]. intros keep.
    apply respects_bind; [auto|]. intros rest. apply respects_ret.
Qed.

Lemma respects_here {A B} (m : M A) (k : A -> M B) st :
  P st (m st).1 -> (forall a, respects P (k a)) -> P st (bind m k st).1.
Proof.
  intros Hm Hk. unfold bind.
  destruct (m st) as [st' [a|e]]; simpl in *; [|assumption].
  eapply P_trans; [exact Hm|apply Hk].
Qed.

Lemma respects_get_state : respects P get_state.
Proof. intros st. apply P_refl. Qed.

Lemma respects_getProperties id : respects P (getProperties id).
Proof. intros st. apply P_refl. Qed.

Lemma respects_getAllPropertiesOfType ty :
  respects P (getAllPropertiesOfType ty).
Proof. intros st. apply P_refl. Qed.

Lemma respects_dot_value v : respects P (dot_value v).
Proof. destruct v; simpl; auto using respects_ret, respects_throw. Qed.

Lemma respects_array_of e n : respects P (array_of e n).
Proof.
  unfold array_of. destruct (get_field e n) as [[| | |]|];
    auto using respects_ret, respects_throw.
Qed.

Lemma respects_getIFCSchema : respects P getIFCSchema.
Proof.
  unfold getIFCSchema. apply respects_bind; [apply respects_get_state|].
  intros st. destruct (schema (model st));
    auto using respects_ret, respects_throw.
Qed.

Lemma respects_getOwnerHistory : respects P getOwnerHistory.
Proof.
  intros st. rewrite getOwnerHistory_state. apply P_refl.
Qed.

End Frame.

Ltac frame_step :=
  first
    [ apply respects_ret | apply respects_throw
    | apply respects_get_state | apply respects_getProperties
    | apply respects_getAllPropertiesOfType | apply respects_dot_value
    | apply respects_array_of | apply respects_getIFCSchema
    | apply respects_getOwnerHistory
    | apply respects_bind; [| |intros ?]
    | apply respects_for_of; [| |intros ?]
    | apply respects_filter_arr; [| |intros ?]
    | match goal with
      | |- respects _ (match ?x with _ => _ end) => destruct x
      | |- respects _ (let (_, _) := ?x in _) => destruct x
      end
    | progress cbv zeta ].

(** ** What stays registered *)

Lemma changes_kept_refl st : changes_kept st st.
Proof. now intros u id. Qed.

Lemma changes_kept_trans a b c :
  changes_kept a b -> changes_kept b c -> changes_kept a c.
Proof. intros H1 H2 u id Hin. apply H2, H1, Hin. Qed.

Lemma changes_kept_same_mgr st st' :
  changeMap (mgr st') = changeMap (mgr st) -> changes_kept st st'.
Proof. intros E u id. unfold change_set. now rewrite E. Qed.

Lemma changes_kept_put_model m : respects changes_kept (put_model m).
Proof. intros st. now apply changes_kept_same_mgr. Qed.

Lemma changes_kept_setProperties id v :
  respects changes_kept (setProperties id v).
Proof. intros st. now apply changes_kept_same_mgr. Qed.

Lemma changes_kept_assign_field id n v :
  respects changes_kept (assign_field id n v).
Proof.
  intros st. apply changes_kept_same_mgr. unfold assign_field.
  now destruct (properties (model st) !! id).
Qed.

Lemma changes_kept_trigger s : respects changes_kept (trigger s).
Proof. intros st. now apply changes_kept_same_mgr. Qed.

Lemma changes_kept_new_Event : respects changes_kept new_Event.
Proof. intros st. now apply changes_kept_same_mgr. Qed.

Lemma changes_kept_registerChange ids :
  respects changes_kept (registerChange ids).
Proof.
  intros st u id Hin. rewrite registerChange_eq. simpl.
  unfold change_set at 1, with_changeMap. cbn [changeMap].
  destruct (decide (u = uuid (model st))) as [->|Hne].
  - rewrite lookup_insert_eq. simpl. apply elem_of_add_all. now left.
  - now rewrite lookup_insert_ne by congruence.
Qed.

Ltac changes_kept :=
  repeat first
    [ apply changes_kept_refl
    | eapply changes_kept_trans; eassumption
    | apply changes_kept_put_model | apply changes_kept_setProperties
    | apply changes_kept_assign_field | apply changes_kept_trigger
    | apply changes_kept_new_Event | apply changes_kept_registerChange
    | match goal with
      | K : context [respects changes_kept _] |- respects changes_kept _ =>
          apply K
      end
    | match goal with
      | |- respects changes_kept (fun st => _) =>
          intros ?; apply changes_kept_same_mgr; reflexivity
      end
    | frame_step
    | intros ].

Lemma changes_kept_setData d : respects changes_kept (setData d).
Proof. unfold setData. changes_kept. Qed.

Lemma changes_kept_increaseMaxID : respects changes_kept increaseMaxID.
Proof. unfold increaseMaxID. changes_kept. Qed.

Lemma changes_kept_newGUID `{Externals} : respects changes_kept newGUID.
Proof. unfold newGUID. changes_kept. Qed.

Lemma changes_kept_newSingleProperty cls name value :
  respects changes_kept (newSingleProperty cls name value).
Proof.
  unfold newSingleProperty.
  pose proof changes_kept_increaseMaxID. pose proof changes_kept_setData.
  changes_kept.
Qed.

Lemma changes_kept_newPset `{Externals} name description :
  respects changes_kept (newPset name description).
Proof.
  unfold newPset.
  pose proof changes_kept_increaseMaxID. pose proof changes_kept_setData.
  pose proof changes_kept_newGUID.
  changes_kept.
Qed.

Lemma changes_kept_delete_key k : respects changes_kept (delete_key k).
Proof. unfold delete_key. changes_kept. Qed.

Lemma changes_kept_removePset `{Externals} ids :
  respects changes_kept (removePset ids).
Proof.
  unfold removePset. pose proof changes_kept_delete_key. changes_kept.
Qed.

Lemma changes_kept_removePsetProp p q :
  respects changes_kept (removePsetProp p q).
Proof. unfold removePsetProp. changes_kept. Qed.

Lemma changes_kept_push_field id n v :
  respects changes_kept (push_field id n v).
Proof. unfold push_field. changes_kept. Qed.

Lemma changes_kept_addElementToPset `{Externals} p ids :
  respects changes_kept (addElementToPset p ids).
Proof.
  unfold addElementToPset. pose proof changes_kept_push_field. changes_kept.
Qed.

Lemma changes_kept_addPropToPset p ids :
  respects changes_kept (addPropToPset p ids).
Proof.
  unfold addPropToPset. pose proof changes_kept_push_field. changes_kept.
Qed.

Lemma changes_kept_assign_value id n v :
  respects changes_kept (assign_value id n v).
Proof. unfold assign_value. changes_kept. Qed.

Lemma changes_kept_setAttributeListener id a :
  respects changes_kept (setAttributeListener id a).
Proof.
  intros st. unfold setAttributeListener.
  unfold bind at 1. unfold get_state at 1.
  apply respects_here;
    [intros; eapply changes_kept_trans; eassumption | | ].
  - destruct (attributeListeners (mgr st) !! uuid (model st));
      now apply changes_kept_same_mgr.
  - intros _. pose proof changes_kept_assign_value.
    assert (K : forall (f : State -> Manager) (ev : EventId),
               (forall s, changeMap (f s) = changeMap (mgr s)) ->
               respects changes_kept
                 (st2 <- get_state;; put_mgr (f st2);;; ret ev)).
    { intros f ev Hf s. apply changes_kept_same_mgr. cbn. apply Hf. }
    changes_kept.
Qed.

(** X4: Every operation of the manager but [dispose] only adds to the change
    map: an express ID registered as changed for a model stays registered,
    whether the operation returns or throws. *)
Theorem changes_stay_registered `{Externals} (o : Op) (st : State) :
  o <> Dispose ->
  changes_kept st (run_op o st).1.
Proof.
  intros Hd.
  assert (D : forall A (m : M A),
             respects changes_kept m -> respects changes_kept (discard m)).
  { intros A m Hm. unfold discard. changes_kept. }
  destruct o; simpl; try congruence;
    first [ apply changes_kept_setData
          | apply D, changes_kept_newPset
          | apply changes_kept_removePset
          | apply D, changes_kept_newSingleProperty
          | apply changes_kept_removePsetProp
          | apply changes_kept_addElementToPset
          | apply changes_kept_addPropToPset
          | apply D, changes_kept_setAttributeListener ].
Qed.

Lemma changes_stay_registered_witness :
  changes_kept (removePsetProp 10 11 sample_state).1
    (@run_op sample_externals (RemovePset [10])
       (removePsetProp 10 11 sample_state).1).1.
Proof.
  apply (@changes_stay_registered sample_externals (RemovePset [10])
           (removePsetProp 10 11 sample_state).1).
  discriminate.
Defined.

(** ** What is stored *)

Lemma no_new_entity_refl st : no_new_entity st st.
Proof. now intros k. Qed.

Lemma no_new_entity_trans a b c :
  no_new_entity a b -> no_new_entity b c -> no_new_entity a c.
Proof. intros H1 H2 k Hk. apply H1, H2, Hk. Qed.

Lemma no_new_entity_same_model st st' :
  properties (model st') = properties (model st) -> no_new_entity st st'.
Proof. intros E k. now rewrite E. Qed.

Lemma no_new_entity_put_mgr g : respects no_new_entity (put_mgr g).
Proof. intros st. now apply no_new_entity_same_model. Qed.

Lemma no_new_entity_trigger s : respects no_new_entity (trigger s).
Proof. intros st. now apply no_new_entity_same_model. Qed.

Lemma no_new_entity_new_Event : respects no_new_entity new_Event.
Proof. intros st. now apply no_new_entity_same_model. Qed.

Lemma no_new_entity_delete id : respects no_new_entity (setProperties id None).
Proof.
  intros st k. cbn. rewrite lookup_delete. case_decide; [|auto].
  intros [? ?]. discriminate.
Qed.

Lemma no_new_entity_assign_field id n v :
  respects no_new_entity (assign_field id n v).
Proof.
  intros st k. unfold assign_field.
  destruct (properties (model st) !! id) as [e|] eqn:E; [|auto].
  cbn. rewrite lookup_insert. case_decide; [|auto]. subst. now rewrite E.
Qed.

Ltac no_new_entity :=
  repeat first
    [ apply no_new_entity_refl
    | eapply no_new_entity_trans; eassumption
    | apply no_new_entity_put_mgr | apply no_new_entity_trigger
    | apply no_new_entity_new_Event | apply no_new_entity_delete
    | apply no_new_entity_assign_field
    | match goal with
      | K : context [respects no_new_entity _] |- respects no_new_entity _ =>
          apply K
      end
    | frame_step
    | intros ].

Lemma no_new_entity_registerChange ids :
  respects no_new_entity (registerChange ids).
Proof. unfold registerChange. no_new_entity. Qed.

Lemma no_new_entity_delete_key k : respects no_new_entity (delete_key k).
Proof. unfold delete_key. no_new_entity. Qed.

Lemma no_new_entity_removePset `{Externals} ids :
  respects no_new_entity (removePset ids).
Proof.
  unfold removePset. pose proof no_new_entity_registerChange.
  pose proof no_new_entity_delete_key. no_new_entity.
Qed.

Lemma no_new_entity_removePsetProp p q :
  respects no_new_entity (removePsetProp p q).
Proof.
  unfold removePsetProp. pose proof no_new_entity_registerChange.
  no_new_entity.
Qed.

Lemma no_new_entity_push_field id n v :
  respects no_new_entity (push_field id n v).
Proof. unfold push_field. no_new_entity. Qed.

Lemma no_new_entity_addElementToPset `{Externals} p ids :
  respects no_new_entity (addElementToPset p ids).
Proof.
  unfold addElementToPset. pose proof no_new_entity_registerChange.
  pose proof no_new_entity_push_field. no_new_entity.
Qed.

Lemma no_new_entity_addPropToPset p ids :
  respects no_new_entity (addPropToPset p ids).
Proof.
  unfold addPropToPset. pose proof no_new_entity_registerChange.
  pose proof no_new_entity_push_field. no_new_entity.
Qed.

Lemma no_new_entity_assign_value id n v :
  respects no_new_entity (assign_value id n v).
Proof. unfold assign_value. no_new_entity. Qed.

Lemma no_new_entity_setAttributeListener id a :
  respects no_new_entity (setAttributeListener id a).
Proof.
  unfold setAttributeListener. pose proof no_new_entity_assign_value.
  no_new_entity.
Qed.

Lemma no_new_entity_dispose : respects no_new_entity dispose.
Proof. unfold dispose. no_new_entity. Qed.

(** ** Creation: failures and the bound on stored express IDs *)

Lemma getOwnerHistory_none st :
  (forall k e, properties (model st) !! k = Some e ->
               type e <> IFCOWNERHISTORY) ->
  getOwnerHistory st = (st, Throw NoOwnerHistory).
Proof.
  intros Hno. unfold getOwnerHistory, bind, getAllPropertiesOfType.
  rewrite decide_True; [reflexivity|].
  apply map_empty. intros k. apply map_lookup_filter_None.
  destruct (properties (model st) !! k) as [e|] eqn:Ek; [right|now left].
  intros e' [= <-] Ht. exact (Hno k e Ek Ht).
Qed.

Lemma newPset_throws `{Externals} st s name description e :
  schema (model st) = Some s ->
  getOwnerHistory st = (st, Throw e) ->
  newPset name description st = (st, Throw e).
Proof.
  intros Es Eoh. unfold newPset.
  unfold bind at 1. unfold getIFCSchema at 1, bind at 1, get_state at 1.
  rewrite Es. unfold ret at 1.
  unfold bind at 1. now rewrite Eoh.
Qed.

Lemma newPset_returns `{Externals} st s name description oh h :
  schema (model st) = Some s ->
  getOwnerHistory st = (st, Ok (oh, h)) ->
  exists st' pset rel,
    newPset name description st = (st', Ok (pset, rel)) /\
    properties (model st') =
      <[maxExpressID (model st) + 2 := rel]>
        (<[maxExpressID (model st) + 1 := pset]> (properties (model st))) /\
    maxExpressID (model st') = maxExpressID (model st) + 2.
Proof.
  intros Es Eoh. unfold newPset.
  unfold bind at 1. unfold getIFCSchema at 1, bind at 1, get_state at 1.
  rewrite Es. unfold ret at 1.
  unfold bind at 1. rewrite Eoh.
  unfold bind at 1. unfold newGUID at 1, bind at 1, getIFCSchema at 1,
    bind at 1, get_state at 1.
  rewrite Es. unfold ret at 1.
  unfold bind at 1.
  unfold increaseMaxID at 1. unfold bind at 1. unfold get_state at 1.
  unfold bind at 1. unfold put_model at 1.
  unfold bind at 1. unfold get_state at 1. unfold ret at 1.
  cbn [model mgr events guids log maxExpressID uuid schema properties].
  unfold bind at 1. unfold newGUID at 1, bind at 1, getIFCSchema at 1,
    bind at 1, get_state at 1.
  cbn [model mgr events guids log maxExpressID uuid schema properties].
  rewrite Es. unfold ret at 1.
  unfold bind at 1.
  unfold increaseMaxID at 1. unfold bind at 1. unfold get_state at 1.
  unfold bind at 1. unfold put_model at 1.
  unfold bind at 1. unfold get_state at 1. unfold ret at 1.
  cbn [model mgr events guids log maxExpressID uuid schema properties].
  unfold bind at 1.
  rewrite setData_cons, setData_one by (simpl; lia).
  rewrite setData_cons, setData_one by (simpl; lia).
  rewrite setData_nil. unfold ret.
  eexists _, _, _. split; [reflexivity|]. cbn -[N.add].
  replace (maxExpressID (model st) + 1 + 1)
    with (maxExpressID (model st) + 2) by lia.
  split; reflexivity.
Qed.

(** X6: Without a schema in the model's metadata the creation operations throw
    "IFC Schema not found" before doing anything: no express ID is taken, no
    identifier is drawn, nothing is stored or registered. *)
Theorem creation_needs_a_schema `{Externals} st :
  schema (model st) = None ->
  (forall name description,
      newPset name description st = (st, Throw SchemaNotFound)) /\
  (forall type name value,
      newSingleStringProperty type name value st = (st, Throw SchemaNotFound)) /\
  (forall type name value,
      newSingleNumericProperty type name value st = (st, Throw SchemaNotFound)) /\
  (forall type name value,
      newSingleBooleanProperty type name value st = (st, Throw SchemaNotFound)).
Proof.
  intros Es.
  assert (S1 : forall cls name value,
             newSingleProperty cls name value st = (st, Throw SchemaNotFound)).
  { intros. unfold newSingleProperty.
    unfold bind at 1. unfold getIFCSchema at 1, bind at 1, get_state at 1.
    now rewrite Es. }
  repeat apply conj; intros;
    unfold newSingleStringProperty, newSingleNumericProperty,
      newSingleBooleanProperty; try apply S1.
  unfold newPset.
  unfold bind at 1. unfold getIFCSchema at 1, bind at 1, get_state at 1.
  now rewrite Es.
Qed.

(** X7: On a model that has a schema but stores no IfcOwnerHistory, [newPset]
    throws "No OwnerHistory was found" and leaves everything as it was. *)
Theorem newPset_needs_an_owner_history `{Externals} st s name description :
  schema (model st) = Some s ->
  (forall k e, properties (model st) !! k = Some e ->
               type e <> IFCOWNERHISTORY) ->
  newPset name description st = (st, Throw NoOwnerHistory).
Proof.
  intros Es Hno. apply (newPset_throws st s _ _ _ Es).
  now apply getOwnerHistory_none.
Qed.

Lemma creation_needs_a_schema_witness :
  @newPset sample_externals "Pset_Custom" None sample_state_no_schema =
    (sample_state_no_schema, Throw SchemaNotFound).
Proof.
  apply (proj1 (@creation_needs_a_schema sample_externals
                  sample_state_no_schema eq_refl)).
Defined.

Lemma newPset_needs_an_owner_history_witness :
  @newPset sample_externals "Pset_Custom" None sample_state_no_history =
    (sample_state_no_history, Throw NoOwnerHistory).
Proof.
  apply (@newPset_needs_an_owner_history sample_externals
           sample_state_no_history IFC4 "Pset_Custom" None eq_refl).
  apply (bool_decide_unpack
           (map_Forall (fun _ e => type e <> IFCOWNERHISTORY)
              (properties (model sample_state_no_history)))).
  vm_compute. exact I.
Defined.

Lemma ids_bounded_run_op `{Externals} (o : Op) (st : State) :
  (forall d, o <> SetData d) ->
  ids_bounded st -> ids_bounded (run_op o st).1.
Proof.
  intros Hs Hb.
  assert (N : creates o = false ->
              no_new_entity st (run_op o st).1 ->
              ids_bounded (run_op o st).1).
  { intros Hc Hn k Hk. rewrite (keeps_run_op o Hc st). apply Hb, Hn, Hk. }
  assert (D : forall A (m : M A),
             respects no_new_entity m -> respects no_new_entity (discard m)).
  { intros A m Hm. unfold discard. no_new_entity. }
  assert (S1 : forall cls name value,
             ids_bounded (discard (newSingleProperty cls name value) st).1).
  { intros cls name value. unfold discard, bind.
    destruct (schema (model st)) as [s|] eqn:Es.
    - destruct (newSingleProperty_created st s cls name value Es)
        as (Er & Ep & Em & _).
      destruct (newSingleProperty cls name value st) as [st' [p|e]];
        simpl in *; [|discriminate Er].
      intros k Hk. rewrite Em. rewrite Ep in Hk.
      rewrite lookup_insert in Hk. case_decide; [lia|].
      specialize (Hb k Hk). lia.
    - unfold newSingleProperty.
      unfold bind at 1. unfold getIFCSchema at 1, bind at 1, get_state at 1.
      rewrite Es. exact Hb. }
  destruct o; simpl; try apply S1.
  - now destruct (Hs dataToSave).
  - unfold discard, bind.
    destruct (schema (model st)) as [s|] eqn:Es.
    + pose proof (getOwnerHistory_state st) as Eoh.
      destruct (getOwnerHistory st) as [st0 [[oh h]|e]] eqn:Eg;
        simpl in Eoh; subst st0.
      * destruct (newPset_returns st s name description oh h Es Eg)
          as (st' & pset & rel & -> & Ep & Em).
        simpl. intros k Hk. rewrite Em. rewrite Ep in Hk.
        rewrite !lookup_insert in Hk. repeat case_decide; try lia.
        specialize (Hb k Hk). lia.
      * now rewrite (newPset_throws st s name description e Es Eg).
    + unfold newPset.
      unfold bind at 1. unfold getIFCSchema at 1, bind at 1, get_state at 1.
      rewrite Es. exact Hb.
  - apply (N eq_refl). apply no_new_entity_removePset.
  - apply (N eq_refl). apply no_new_entity_removePsetProp.
  - apply (N eq_refl). apply no_new_entity_addElementToPset.
  - apply (N eq_refl). apply no_new_entity_addPropToPset.
  - apply (N eq_refl). apply D, no_new_entity_setAttributeListener.
  - apply (N eq_refl). apply no_new_entity_dispose.
Qed.

(** X9: When every stored express ID is at most [maxExpressID], it stays so
    through any sequence of operations of the manager that contains no
    [setData]; the IDs that [newPset] and the single-value constructors take
    next are then never those of stored entities. *)
Theorem stored_ids_stay_below_maxExpressID `{Externals} (ops : list Op)
    (st : State) :
  Forall (fun o => forall d, o <> SetData d) ops ->
  ids_bounded st ->
  let st' := run_ops ops st in
  ids_bounded st' /\
  properties (model st') !! (maxExpressID (model st') + 1) = None /\
  properties (model st') !! (maxExpressID (model st') + 2) = None.
Proof.
  intros Hops Hb.
  assert (B : ids_bounded (run_ops ops st)).
  { revert st Hb. induction Hops as [|o ops Ho Hops IH]; intros st Hb.
    - exact Hb.
    - simpl. apply IH. now apply ids_bounded_run_op. }
  simpl. split; [exact B|]. split; apply fresh_above; (lia || exact B).
Qed.

Lemma stored_ids_stay_below_maxExpressID_witness :
  let st' := @run_ops sample_externals
               [NewPset "Pset_Custom" None; RemovePsetProp 10 11;
                NewSingleBooleanProperty BoolIfcBoolean "IsExternal" true]
               sample_state in
  ids_bounded st' /\
  properties (model st') !! (maxExpressID (model st') + 1) = None /\
  properties (model st') !! (maxExpressID (model st') + 2) = None.
Proof.
  apply (@stored_ids_stay_below_maxExpressID sample_externals
           [NewPset "Pset_Custom" None; RemovePsetProp 10 11;
            NewSingleBooleanProperty BoolIfcBoolean "IsExternal" true]
           sample_state).
  - repeat constructor; discriminate.
  - assert (F : map_Forall (fun k (_ : Entity) => k <= 12)
                 (properties sample_model)).
    { apply (bool_decide_unpack
               (map_Forall (fun k (_ : Entity) => k <= 12)
                  (properties sample_model))).
      vm_compute. exact I. }
    intros k [e Hk]. exact (F k e Hk).
Defined.

(** ** setData *)

Lemma setData_app l1 l2 st :
  setData (l1 ++ l2) st = setData l2 (setData l1 st).1.
Proof.
  pose proof (setData_returns l1 st) as R.
  destruct (setData l1 st) as [st' [[]|e]] eqn:E; [|discriminate R].
  unfold setData in *. now apply for_of_app.
Qed.

Lemma setData_skip d st : expressID d = 0 -> setData [d] st = (st, Ok tt).
Proof. intros E. unfold setData. simpl. now rewrite bool_decide_true. Qed.

(** X1: [setData] never throws, and an entry without a truthy [expressID] is
    passed over in silence: the call does what it would do on the entries
    that have one. *)
Theorem setData_passes_over_entries_without_expressID dataToSave st :
  (setData dataToSave st).2 = Ok tt /\
  setData dataToSave st = setData (stored_entries dataToSave) st.
Proof.
  split; [apply setData_returns|].
  revert st. induction dataToSave as [|d ds IH]; intros st; [reflexivity|].
  unfold stored_entries in *. rewrite filter_cons.
  rewrite setData_cons. case_decide as Hd.
  - rewrite (setData_cons d (filter _ ds)).
    destruct (setData [d] st) as [st' [[]|e]]; [apply IH|reflexivity].
  - rewrite setData_skip by (destruct (decide (expressID d = 0)); tauto).
    apply IH.
Qed.

Lemma setData_one_state d st :
  expressID d <> 0 ->
  let st' := (setData [d] st).1 in
  uuid (model st') = uuid (model st) /\
  maxExpressID (model st') = maxExpressID (model st) /\
  properties (model st') = <[expressID d := d]> (properties (model st)) /\
  log st' = log st ++ [DataChanged (uuid (model st)) (expressID d)] /\
  change_set (mgr st') (uuid (model st)) =
    set_add (expressID d) (change_set (mgr st) (uuid (model st))).
Proof.
  intros Hd. rewrite setData_one by assumption. simpl.
  repeat apply conj; try reflexivity.
  unfold change_set at 1, with_changeMap. cbn [changeMap].
  now rewrite lookup_insert_eq.
Qed.

Lemma setData_state dataToSave st :
  let u := uuid (model st) in
  let st' := (setData dataToSave st).1 in
  uuid (model st') = u /\
  (forall id,
      properties (model st') !! id =
        from_option Some (properties (model st) !! id)
          (last (filter (fun d => expressID d = id)
                   (stored_entries dataToSave)))) /\
  maxExpressID (model st') = maxExpressID (model st) /\
  log st' = log st ++
            map (fun d => DataChanged u (expressID d))
                (stored_entries dataToSave) /\
  (forall id, id ∈ change_set (mgr st') u <->
              id ∈ change_set (mgr st) u \/
              id ∈ map expressID (stored_entries dataToSave)).
Proof.
  intros u st'. subst st'.
  induction dataToSave as [|d ds IH] using rev_ind.
  - simpl. split; [reflexivity|]. repeat apply conj; try reflexivity.
    + now rewrite app_nil_r.
    + intros id. rewrite elem_of_nil. tauto.
  - rewrite setData_app. unfold stored_entries in *. rewrite filter_app.
    destruct IH as (Eu & Ep & Em & El & Ec).
    set (st1 := (setData ds st).1) in *.
    destruct (decide (expressID d = 0)) as [Hz|Hz].
    + rewrite setData_skip by assumption. simpl.
      rewrite filter_cons, decide_False by tauto.
      rewrite filter_nil, app_nil_r.
      split; [assumption|]. repeat apply conj; assumption.
    + destruct (setData_one_state d st1 Hz) as (Fu & Fm & Fp & Fl & Fc).
      rewrite filter_cons, decide_True by assumption. rewrite filter_nil.
      split; [now rewrite Fu|]. repeat apply conj.
      * intros id. rewrite Fp, filter_app, filter_cons, filter_nil.
        rewrite lookup_insert. case_decide as Hid.
        -- rewrite last_snoc. reflexivity.
        -- rewrite app_nil_r. apply Ep.
      * now rewrite Fm.
      * rewrite Fl, El, Eu, map_app, app_assoc. reflexivity.
      * intros id. rewrite <- Eu, Fc, elem_of_set_add, Eu, Ec.
        rewrite map_app, elem_of_app. simpl.
        rewrite list_elem_of_singleton. tauto.
Qed.

(** X2: After [setData], the model holds under every truthy express ID the last
    entry given with that ID, and what it held before under the others;
    [maxExpressID] is not moved; onDataChanged has been triggered once per
    stored entry, in order, and each of their IDs is registered as changed. *)
Theorem setData_stores_and_registers dataToSave st :
  let u := uuid (model st) in
  let st' := (setData dataToSave st).1 in
  (forall id,
      properties (model st') !! id =
        from_option Some (properties (model st) !! id)
          (last (filter (fun d => expressID d = id)
                   (stored_entries dataToSave)))) /\
  maxExpressID (model st') = maxExpressID (model st) /\
  log st' = log st ++
            map (fun d => DataChanged u (expressID d))
                (stored_entries dataToSave) /\
  (forall id, id ∈ change_set (mgr st') u <->
              id ∈ change_set (mgr st) u \/
              id ∈ map expressID (stored_entries dataToSave)).
Proof. exact (proj2 (setData_state dataToSave st)). Qed.


(** X10: [setData] stores an entity under an express ID above [maxExpressID]
    without moving [maxExpressID], so the next created property takes that
    same ID and replaces the entity. *)
Theorem creation_replaces_entity_stored_above_maxExpressID st s d cls name
    value :
  schema (model st) = Some s ->
  expressID d = maxExpressID (model st) + 1 ->
  let st1 := (setData [d] st).1 in
  let r := newSingleProperty cls name value st1 in
  properties (model st1) !! expressID d = Some d /\
  exists prop,
    r.2 = Ok prop /\ expressID prop = expressID d /\
    properties (model r.1) !! expressID d = Some prop.
Proof.
  intros Es Ed st1 r.
  assert (Hd : expressID d <> 0) by lia.
  assert (E1 : st1 = (setData [d] st).1) by reflexivity.
  rewrite setData_one in E1 by assumption. simpl in E1.
  assert (Es1 : schema (model st1) = Some s) by (now rewrite E1).
  assert (Em1 : maxExpressID (model st1) = maxExpressID (model st))
    by (now rewrite E1).
  split.
  - rewrite E1. simpl. apply lookup_insert_eq.
  - destruct (newSingleProperty_created st1 s cls name value Es1)
      as (Er & Ep & _).
    fold r in Er, Ep. eexists. split; [exact Er|]. split.
    + simpl. now rewrite Em1, Ed.
    + rewrite Ep, Em1, <- Ed. apply lookup_insert_eq.
Qed.

Lemma creation_replaces_entity_stored_above_maxExpressID_witness :
  let d := mkEntity 13 IFCPROPERTYSINGLEVALUE [] in
  let st1 := (setData [d] sample_state).1 in
  let r := newSingleProperty IfcLabel "Finish" (PStr "Paint") st1 in
  properties (model st1) !! expressID d = Some d /\
  exists prop,
    r.2 = Ok prop /\ expressID prop = expressID d /\
    properties (model r.1) !! expressID d = Some prop.
Proof.
  apply (creation_replaces_entity_stored_above_maxExpressID sample_state IFC4
           (mkEntity 13 IFCPROPERTYSINGLEVALUE []) IfcLabel "Finish"
           (PStr "Paint")); reflexivity.
Defined.

(** ** removePset *)

Lemma for_of_one {S A} (x : A) (body : A -> ST S unit) st :
  for_of [x] body st =
    match body x st with
    | (st', Ok _) => (st', Ok tt)
    | (st', Throw e) => (st', Throw e)
    end.
Proof. simpl. unfold bind. now destruct (body x st) as [st' [[]|e]]. Qed.

(** X11: [removePset] passes over every ID that names no entity or an entity that
    is not an IfcPropertySet: on such IDs alone it returns normally and
    changes nothing. *)
Theorem removePset_passes_over_other_entities `{Externals} psetID st :
  Forall (fun id => forall e, properties (model st) !! id = Some e ->
                              type e <> IFCPROPERTYSET) psetID ->
  removePset psetID st = (st, Ok tt).
Proof.
  intros Hall. unfold removePset.
  induction Hall as [|id ids Hid Hall IH]; [reflexivity|].
  simpl. unfold bind at 1. unfold bind at 1. unfold getProperties at 1.
  destruct (properties (model st) !! id) as [e|] eqn:Ee.
  - rewrite bool_decide_false by (now apply Hid). simpl. exact IH.
  - exact IH.
Qed.

Lemma removePset_passes_over_other_entities_witness :
  @removePset sample_externals [11; 99; 5] sample_state =
    (sample_state, Ok tt).
Proof.
  apply (@removePset_passes_over_other_entities sample_externals [11; 99; 5]
           sample_state).
  repeat constructor; intros e; vm_compute; intros [= <-]; discriminate.
Defined.

Lemma model_eta m :
  mkModel (uuid m) (schema m) (maxExpressID m) (properties m) = m.
Proof. now destruct m. Qed.

Lemma lookup_delete_all (ps : list N) : forall (m : gmap N Entity) k,
  fold_left (fun m p => delete p m) ps m !! k =
    if decide (k ∈ ps) then None else m !! k.
Proof.
  induction ps as [|p ps IH]; intros m k; cbn [fold_left].
  - rewrite decide_False by apply not_elem_of_nil. reflexivity.
  - rewrite IH, lookup_delete.
    destruct (decide (k ∈ ps)) as [Hin|Hin].
    + rewrite decide_True by (apply elem_of_cons; auto). reflexivity.
    + destruct (decide (p = k)) as [->|Hne].
      * rewrite decide_True by (apply elem_of_cons; auto). reflexivity.
      * rewrite decide_False; [reflexivity|].
        rewrite elem_of_cons. intros [E|E]; [congruence|tauto].
Qed.

Lemma delete_handles_loop ps : forall st,
  for_of (map newHandle ps)
    (fun propHandle => k <- dot_value propHandle;; delete_key k) st =
  (mkState
     (mkModel (uuid (model st)) (schema (model st)) (maxExpressID (model st))
        (fold_left (fun m p => delete p m) ps (properties (model st))))
     (mgr st) (events st) (guids st) (log st), Ok tt).
Proof.
  induction ps as [|p ps IH]; intros st.
  - simpl. unfold ret. now rewrite model_eta, state_eta.
  - simpl. unfold bind at 1. unfold bind at 1. unfold ret at 1.
    unfold delete_key, ref. rewrite bool_decide_true by lia.
    rewrite N2Z.id. unfold setProperties at 1, put_model at 1.
    rewrite IH. reflexivity.
Qed.

(** X12: [removePset] on an IfcPropertySet whose HasProperties holds handles:
    the Pset, the properties its handles name and the relation found for it
    are removed from the model and everything else stays; onPsetRemoved is
    triggered for the Pset; the relation and the Pset, and no other ID, are
    registered as changed, with onDataChanged triggered for each. *)
Theorem removePset_removes_pset_properties_and_relation `{Externals} id st
    pset ps :
  properties (model st) !! id = Some pset ->
  type pset = IFCPROPERTYSET ->
  get_field pset "HasProperties" = Some (VArr (map newHandle ps)) ->
  let u := uuid (model st) in
  let rel := found_rel (model st) id in
  exists st',
    removePset [id] st = (st', Ok tt) /\
    (forall k, properties (model st') !! k =
               if decide (k ∈ id :: ps ++ rel) then None
               else properties (model st) !! k) /\
    maxExpressID (model st') = maxExpressID (model st) /\
    log st' = log st ++ map (DataChanged u) rel ++
              [PsetRemoved u id; DataChanged u id] /\
    (forall k, k ∈ change_set (mgr st') u <->
               k ∈ change_set (mgr st) u \/ k ∈ rel ++ [id]).
Proof.
  intros Ep Et Ef u rel.
  assert (R : exists sa,
    (match getPsetRel (model st) id with
     | Some relID =>
         if bool_decide (relID = 0) then ret tt
         else setProperties relID None;;; registerChange [relID]
     | None => ret tt
     end) st = (sa, Ok tt) /\
    uuid (model sa) = u /\
    maxExpressID (model sa) = maxExpressID (model st) /\
    properties (model sa) =
      fold_left (fun m p => delete p m) rel (properties (model st)) /\
    log sa = log st ++ map (DataChanged u) rel /\
    (forall k, k ∈ change_set (mgr sa) u <->
               k ∈ change_set (mgr st) u \/ k ∈ rel)).
  { unfold rel, found_rel.
    destruct (getPsetRel (model st) id) as [relID|].
    - destruct (decide (relID = 0)) as [Hz|Hz].
      + rewrite bool_decide_true by assumption. exists st.
        repeat apply conj; try reflexivity.
        * now rewrite app_nil_r.
        * intros k. rewrite elem_of_nil. tauto.
      + rewrite bool_decide_false by assumption.
        unfold bind, setProperties, put_model. rewrite registerChange_eq.
        eexists. split; [reflexivity|]. simpl.
        repeat apply conj; try reflexivity.
        intros k. unfold change_set at 1, with_changeMap. cbn [changeMap].
        rewrite lookup_insert_eq. simpl. fold u.
        rewrite elem_of_set_add, list_elem_of_singleton. reflexivity.
    - exists st. repeat apply conj; try reflexivity.
      + now rewrite app_nil_r.
      + intros k. rewrite elem_of_nil. tauto. }
  destruct R as (sa & Ea & Eu & Em & Epa & Ela & Eca).
  unfold removePset. rewrite for_of_one.
  unfold bind at 1. unfold getProperties at 1. rewrite Ep.
  rewrite bool_decide_true by assumption. cbn [negb].
  unfold bind at 1. unfold get_state at 1.
  unfold bind at 1. rewrite Ea.
  unfold bind at 1. unfold array_of at 1. rewrite Ef. unfold ret at 1.
  unfold bind at 1. rewrite delete_handles_loop.
  unfold bind at 1. unfold setProperties at 1, put_model at 1.
  unfold bind at 1. cbn [model uuid].
  unfold bind at 1. unfold trigger at 1. cbn [model mgr events guids log].
  rewrite registerChange_eq.
  eexists. split; [reflexivity|]. cbn -[change_set].
  repeat apply conj.
  - intros k. rewrite lookup_delete, lookup_delete_all, Epa, lookup_delete_all.
    destruct (decide (k ∈ id :: ps ++ rel)) as [Hin|Hin];
      rewrite elem_of_cons, elem_of_app in Hin.
    + destruct (decide (id = k)) as [|Hne]; [reflexivity|].
      destruct (decide (k ∈ ps)); [reflexivity|].
      destruct (decide (k ∈ rel)); [reflexivity|].
      exfalso. destruct Hin as [E|[?|?]]; [congruence|tauto|tauto].
    + rewrite !decide_False by (try intros <-; tauto). reflexivity.
  - assumption.
  - rewrite Ela, Eu, <- !app_assoc. reflexivity.
  - intros k. unfold change_set at 1, with_changeMap. cbn [changeMap].
    rewrite Eu, lookup_insert_eq. simpl.
    rewrite elem_of_set_add, Eca, elem_of_app, list_elem_of_singleton. tauto.
Qed.

Lemma removePset_removes_pset_properties_and_relation_witness :
  exists st',
    @removePset sample_externals [10] sample_state = (st', Ok tt) /\
    (forall k, properties (model st') !! k =
               if decide (k ∈ 10 :: [11] ++ [12]) then None
               else properties (model sample_state) !! k) /\
    maxExpressID (model st') = maxExpressID (model sample_state) /\
    log st' = log sample_state ++ map (DataChanged "model-A") [12] ++
              [PsetRemoved "model-A" 10; DataChanged "model-A" 10] /\
    (forall k, k ∈ change_set (mgr st') "model-A" <->
               k ∈ change_set (mgr sample_state) "model-A" \/ k ∈ [12] ++ [10]).
Proof.
  apply (@removePset_removes_pset_properties_and_relation sample_externals
           10 sample_state sample_pset [11]); reflexivity.
Defined.

(** ** removePsetProp, addElementToPset, addPropToPset *)

Lemma assoc_set_id k v l : assoc k l = Some v -> assoc_set k v l = l.
Proof.
  induction l as [|[k' v'] l IH]; simpl; [discriminate|].
  case_decide as Hk.
  - now intros [= ->]; subst.
  - intros E. now rewrite IH.
Qed.

Lemma assoc_set_set k v1 v2 l :
  assoc_set k v2 (assoc_set k v1 l) = assoc_set k v2 l.
Proof.
  induction l as [|[k' v'] l IH]; simpl.
  - now rewrite decide_True.
  - case_decide as Hk; simpl.
    + now rewrite decide_True.
    + rewrite decide_False by assumption. now rewrite IH.
Qed.

Lemma set_attr_set_attr e n v1 v2 :
  set_attr (set_attr e n v1) n v2 = set_attr e n v2.
Proof. unfold set_attr. simpl. now rewrite assoc_set_set. Qed.

Lemma get_field_VArr e n l :
  get_field e n = Some (VArr l) ->
  n <> "expressID"%string /\ n <> "type"%string /\
  assoc n (attrs e) = Some (VArr l).
Proof. unfold get_field. repeat case_decide; try discriminate. auto. Qed.

Lemma set_attr_id e n l :
  get_field e n = Some (VArr l) -> set_attr e n (VArr l) = e.
Proof.
  intros F. destruct (get_field_VArr _ _ _ F) as (_ & _ & A).
  unfold set_attr. rewrite (assoc_set_id _ _ _ A). now destruct e.
Qed.

Lemma store_store id e1 e2 m :
  store id (Some e2) (store id (Some e1) m) = store id (Some e2) m.
Proof. unfold store. simpl. now rewrite insert_insert_eq. Qed.

Lemma store_id id e m : properties m !! id = Some e -> store id (Some e) m = m.
Proof. intros E. unfold store. rewrite (insert_id _ _ _ E). apply model_eta. Qed.

Lemma push_loop {T} (n : string) (id : N) (sig : T -> Signal) (h : T -> Value)
    (xs : list T) : forall st e arr,
  properties (model st) !! id = Some e ->
  get_field e n = Some (VArr arr) ->
  for_of xs (fun x => push_field id n (h x);;; trigger (sig x)) st =
    (mkState (store id (Some (set_attr e n (VArr (arr ++ map h xs)))) (model st))
       (mgr st) (events st) (guids st) (log st ++ map sig xs), Ok tt).
Proof.
  induction xs as [|x xs IH]; intros st e arr E F.
  - simpl. unfold ret. rewrite !app_nil_r, (set_attr_id _ _ _ F).
    now rewrite (store_id _ _ _ E), state_eta.
  - destruct (get_field_VArr _ _ _ F) as (N1 & N2 & _).
    simpl. unfold bind at 1. unfold bind at 1.
    unfold push_field at 1. unfold bind at 1. unfold getProperties at 1.
    rewrite E. unfold bind at 1. unfold array_of at 1. rewrite F.
    unfold ret at 1. rewrite (assign_field_some _ _ _ _ _ E).
    unfold trigger at 1. cbn [model mgr events guids log].
    rewrite (IH _ (set_attr e n (VArr (arr ++ [h x]))) (arr ++ [h x]));
      [|simpl; apply lookup_insert_eq|now apply get_field_set_attr].
    cbn [model mgr events guids log].
    now rewrite set_attr_set_attr, store_store, <- !app_assoc.
Qed.

(** X15: [addElementToPset] with a relation found for the Pset pushes one handle
    per given element ID, in order and without looking for duplicates, onto
    the RelatedObjects of that relation, triggers onElementToPset for each,
    and registers the Pset (not the relation it edited) as changed. *)
Theorem addElementToPset_pushes_onto_the_relation `{Externals} psetID
    elementID st relID rel arr :
  getPsetRel (model st) psetID = Some relID ->
  relID <> 0 ->
  properties (model st) !! relID = Some rel ->
  get_field rel "RelatedObjects" = Some (VArr arr) ->
  let u := uuid (model st) in
  exists st',
    addElementToPset psetID elementID st = (st', Ok tt) /\
    properties (model st') =
      <[relID := set_attr rel "RelatedObjects"
                   (VArr (arr ++ map newHandle elementID))]>
        (properties (model st)) /\
    log st' = log st ++ map (ElementToPset u psetID) elementID ++
              [DataChanged u psetID] /\
    (forall k, k ∈ change_set (mgr st') u <->
               k ∈ change_set (mgr st) u \/ k = psetID).
Proof.
  intros Er Hz Ek Ef u. unfold addElementToPset.
  unfold bind at 1. unfold get_state at 1. rewrite Er.
  rewrite bool_decide_false by assumption.
  unfold bind at 1. unfold getProperties at 1. rewrite Ek.
  unfold bind at 1.
  rewrite (push_loop "RelatedObjects" relID (ElementToPset (uuid (model st)) psetID)
             newHandle elementID st rel arr Ek Ef).
  rewrite registerChange_eq. eexists. split; [reflexivity|].
  cbn -[change_set]. repeat apply conj.
  - reflexivity.
  - now rewrite <- app_assoc.
  - intros k. unfold change_set at 1, with_changeMap. cbn [changeMap].
    rewrite lookup_insert_eq. simpl. apply elem_of_set_add.
Qed.

Lemma addElementToPset_pushes_onto_the_relation_witness :
  exists st',
    @addElementToPset sample_externals 10 [8; 7] sample_state = (st', Ok tt) /\
    properties (model st') =
      <[12 := set_attr sample_rel "RelatedObjects"
                (VArr ([newHandle 7] ++ map newHandle [8; 7]))]>
        (properties (model sample_state)) /\
    log st' = log sample_state ++ map (ElementToPset "model-A" 10) [8; 7] ++
              [DataChanged "model-A" 10] /\
    (forall k, k ∈ change_set (mgr st') "model-A" <->
               k ∈ change_set (mgr sample_state) "model-A" \/ k = 10).
Proof.
  apply (@addElementToPset_pushes_onto_the_relation sample_externals 10 [8; 7]
           sample_state 12 sample_rel [newHandle 7]);
    (reflexivity || discriminate).
Defined.

(** X16: Without a relation for the Pset — [getPsetRel] finds none, or one that
    the model does not hold — [addElementToPset] returns normally and changes
    nothing: nothing is triggered and nothing is registered. *)
Theorem addElementToPset_without_relation `{Externals} psetID elementID st :
  match getPsetRel (model st) psetID with
  | Some relID => relID = 0 \/ properties (model st) !! relID = None
  | None => True
  end ->
  addElementToPset psetID elementID st = (st, Ok tt).
Proof.
  intros Hr. unfold addElementToPset.
  unfold bind at 1. unfold get_state at 1.
  destruct (getPsetRel (model st) psetID) as [relID|]; [|reflexivity].
  destruct (decide (relID = 0)) as [Hz|Hz].
  - now rewrite bool_decide_true.
  - rewrite bool_decide_false by assumption. destruct Hr as [?|Hk]; [tauto|].
    unfold bind at 1. unfold getProperties at 1. now rewrite Hk.
Qed.

Lemma addElementToPset_without_relation_witness :
  @addElementToPset sample_externals 11 [8] sample_state = (sample_state, Ok tt).
Proof.
  apply (@addElementToPset_without_relation sample_externals 11 [8]
           sample_state).
  vm_compute. exact I.
Defined.

Lemma includes_objects_only arr id : objects_only arr -> includes arr id = false.
Proof.
  unfold objects_only, includes. induction 1 as [|v arr Hv _ IH]; simpl.
  - reflexivity.
  - rewrite IH. destruct v; try reflexivity. now destruct (Hv p).
Qed.

Lemma includes_raw arr id : VRaw (ref id) ∈ arr -> includes arr id = true.
Proof.
  unfold includes. intros Hin. apply existsb_exists.
  exists (VRaw (ref id)). split; [now apply list_elem_of_In|].
  now apply bool_decide_eq_true.
Qed.

Lemma objects_only_snoc arr id :
  objects_only arr -> objects_only (arr ++ [newHandle id]).
Proof.
  intros Ho. apply Forall_app. split; [assumption|].
  constructor; [|constructor]. intros p. discriminate.
Qed.

Lemma addProp_loop (u : string) (psetID : N) (ids : list N) :
  forall st pset arr,
  properties (model st) !! psetID = Some pset ->
  get_field pset "HasProperties" = Some (VArr arr) ->
  objects_only arr ->
  for_of ids (fun expressID =>
    cur <- getProperties psetID;;
    match cur with
    | None => ret tt
    | Some cur =>
        arr <- array_of cur "HasProperties";;
        if includes arr expressID then ret tt
        else
          push_field psetID "HasProperties" (newHandle expressID);;;
          trigger (PropToPset u psetID expressID)
    end) st =
  (mkState
     (store psetID
        (Some (set_attr pset "HasProperties" (VArr (arr ++ map newHandle ids))))
        (model st))
     (mgr st) (events st) (guids st)
     (log st ++ map (PropToPset u psetID) ids), Ok tt).
Proof.
  induction ids as [|x ids IH]; intros st pset arr E F Ho.
  - simpl. unfold ret. rewrite !app_nil_r, (set_attr_id _ _ _ F).
    now rewrite (store_id _ _ _ E), state_eta.
  - destruct (get_field_VArr _ _ _ F) as (N1 & N2 & _).
    simpl. unfold bind at 1. unfold bind at 1. unfold getProperties at 1.
    rewrite E. unfold bind at 1. unfold array_of at 1. rewrite F.
    unfold ret at 1. rewrite (includes_objects_only _ _ Ho).
    unfold bind at 1.
    unfold push_field at 1. unfold bind at 1. unfold getProperties at 1.
    rewrite E. unfold bind at 1. unfold array_of at 1. rewrite F.
    unfold ret at 1. rewrite (assign_field_some _ _ _ _ _ E).
    unfold trigger at 1. cbn [model mgr events guids log].
    rewrite (IH _ (set_attr pset "HasProperties" (VArr (arr ++ [newHandle x])))
               (arr ++ [newHandle x]));
      [|simpl; apply lookup_insert_eq|now apply get_field_set_attr
       |now apply objects_only_snoc].
    cbn [model mgr events guids log].
    now rewrite set_attr_set_attr, store_store, <- !app_assoc.
Qed.

(** X17: [addPropToPset] on a Pset whose HasProperties holds objects only pushes
    one handle per given property ID, in order, whether or not a handle to
    that property is already there, triggers onPropToPset for each and
    registers the Pset as changed. *)
Theorem addPropToPset_pushes_a_handle_per_id psetID propID st pset arr :
  properties (model st) !! psetID = Some pset ->
  get_field pset "HasProperties" = Some (VArr arr) ->
  objects_only arr ->
  let u := uuid (model st) in
  exists st',
    addPropToPset psetID propID st = (st', Ok tt) /\
    properties (model st') =
      <[psetID := set_attr pset "HasProperties"
                    (VArr (arr ++ map newHandle propID))]>
        (properties (model st)) /\
    log st' = log st ++ map (PropToPset u psetID) propID ++
              [DataChanged u psetID] /\
    (forall k, k ∈ change_set (mgr st') u <->
               k ∈ change_set (mgr st) u \/ k = psetID).
Proof.
  intros E F Ho u. unfold addPropToPset.
  unfold bind at 1. unfold get_state at 1.
  unfold bind at 1. unfold getProperties at 1. rewrite E.
  unfold bind at 1.
  rewrite (addProp_loop (uuid (model st)) psetID propID st pset arr E F Ho).
  rewrite registerChange_eq. eexists. split; [reflexivity|].
  cbn -[change_set]. repeat apply conj.
  - reflexivity.
  - now rewrite <- app_assoc.
  - intros k. unfold change_set at 1, with_changeMap. cbn [changeMap].
    rewrite lookup_insert_eq. simpl. apply elem_of_set_add.
Qed.

Lemma addPropToPset_pushes_a_handle_per_id_witness :
  exists st',
    addPropToPset 10 [13; 11; 13] sample_state = (st', Ok tt) /\
    properties (model st') =
      <[10 := set_attr sample_pset "HasProperties"
                (VArr ([newHandle 11] ++ map newHandle [13; 11; 13]))]>
        (properties (model sample_state)) /\
    log st' = log sample_state ++ map (PropToPset "model-A" 10) [13; 11; 13] ++
              [DataChanged "model-A" 10] /\
    (forall k, k ∈ change_set (mgr st') "model-A" <->
               k ∈ change_set (mgr sample_state) "model-A" \/ k = 10).
Proof.
  apply (addPropToPset_pushes_a_handle_per_id 10 [13; 11; 13] sample_state
           sample_pset [newHandle 11]); try reflexivity.
  repeat constructor; discriminate.
Defined.

(** X18: The membership test of [addPropToPset] recognises a raw number only: an
    ID that HasProperties holds as a bare number is passed over, so a call
    with that ID alone pushes nothing, triggers no onPropToPset, and still
    registers the Pset as changed. *)
Theorem addPropToPset_passes_over_raw_members psetID id st pset arr :
  properties (model st) !! psetID = Some pset ->
  get_field pset "HasProperties" = Some (VArr arr) ->
  VRaw (ref id) ∈ arr ->
  let u := uuid (model st) in
  exists st',
    addPropToPset psetID [id] st = (st', Ok tt) /\
    model st' = model st /\
    log st' = log st ++ [DataChanged u psetID] /\
    (forall k, k ∈ change_set (mgr st') u <->
               k ∈ change_set (mgr st) u \/ k = psetID).
Proof.
  intros E F Hin u. unfold addPropToPset.
  unfold bind at 1. unfold get_state at 1.
  unfold bind at 1. unfold getProperties at 1. rewrite E.
  unfold bind at 1. rewrite for_of_one.
  unfold bind at 1. unfold getProperties at 1. rewrite E.
  unfold bind at 1. unfold array_of at 1. rewrite F. unfold ret at 1.
  rewrite (includes_raw _ _ Hin). unfold ret at 1.
  rewrite registerChange_eq. eexists. split; [reflexivity|].
  split; [reflexivity|]. split; [reflexivity|].
  intros k. unfold change_set at 1, with_changeMap. cbn [changeMap mgr].
  rewrite lookup_insert_eq. simpl. apply elem_of_set_add.
Qed.

Lemma addPropToPset_passes_over_raw_members_witness :
  let pset := set_attr sample_pset "HasProperties" (VArr [VRaw (ref 11)]) in
  let st := mkState (store 10 (Some pset) sample_model) fresh_manager 0 0 [] in
  exists st',
    addPropToPset 10 [11] st = (st', Ok tt) /\
    model st' = model st /\
    log st' = log st ++ [DataChanged "model-A" 10] /\
    (forall k, k ∈ change_set (mgr st') "model-A" <->
               k ∈ change_set (mgr st) "model-A" \/ k = 10).
Proof.
  intros pset st.
  apply (addPropToPset_passes_over_raw_members 10 11 st pset [VRaw (ref 11)]);
    try reflexivity.
  apply list_elem_of_singleton. reflexivity.
Defined.

Lemma ref_inj a b : ref a = ref b -> a = b.
Proof. unfold ref. intros [= E]. now apply N2Z.inj. Qed.

Lemma filter_handles propID hs st :
  filter_arr (fun handle =>
      v <- dot_value handle;;
      ret (bool_decide (v <> Some (ref propID)))) (map newHandle hs) st =
    (st, Ok (map newHandle (filter (fun h => h <> propID) hs))).
Proof.
  induction hs as [|h hs IH]; [reflexivity|].
  simpl. unfold bind at 1. unfold bind at 1. unfold ret at 1. unfold ret at 1.
  unfold bind at 1. rewrite IH. unfold ret. rewrite filter_cons.
  destruct (decide (h = propID)) as [->|Hne].
  - rewrite bool_decide_false by tauto. now rewrite decide_False by tauto.
  - rewrite bool_decide_true; [now rewrite decide_True|].
    intros [= E]. apply Hne. now apply ref_inj; unfold ref; f_equal.
Qed.

Lemma removePsetProp_run psetID propID st pset prop hs :
  properties (model st) !! psetID = Some pset ->
  properties (model st) !! propID = Some prop ->
  type pset = IFCPROPERTYSET ->
  get_field pset "HasProperties" = Some (VArr (map newHandle hs)) ->
  let u := uuid (model st) in
  let pset' :=
    set_attr pset "HasProperties"
      (VArr (map newHandle (filter (fun h => h <> propID) hs))) in
  exists st',
    removePsetProp psetID propID st = (st', Ok tt) /\
    properties (model st') =
      delete propID (<[psetID := pset']> (properties (model st))) /\
    log st' = log st ++ [DataChanged u psetID; DataChanged u propID] /\
    (forall k, k ∈ change_set (mgr st') u <->
               k ∈ change_set (mgr st) u \/ k = psetID \/ k = propID).
Proof.
  intros Ep Eq Et Ef u pset'. unfold removePsetProp.
  unfold bind at 1. unfold getProperties at 1.
  unfold bind at 1. unfold getProperties at 1. rewrite Ep, Eq.
  rewrite bool_decide_true by assumption. cbn [negb].
  unfold bind at 1. unfold array_of at 1. rewrite Ef. unfold ret at 1.
  unfold bind at 1. rewrite filter_handles.
  unfold bind at 1. rewrite (assign_field_some _ _ _ _ _ Ep).
  unfold bind at 1. unfold setProperties at 1, put_model at 1.
  rewrite registerChange_eq. eexists. split; [reflexivity|].
  cbn -[change_set]. repeat apply conj; try reflexivity.
  intros k. unfold change_set at 1, with_changeMap. cbn [changeMap].
  rewrite lookup_insert_eq. simpl.
  unfold add_all. simpl. rewrite !elem_of_set_add. tauto.
Qed.

(** X13: [removePsetProp] on an IfcPropertySet and a stored property: every
    handle to the property is taken out of the Pset's HasProperties, the other
    handles stay in order, the property is removed from the model, and the
    Pset and the property are registered as changed, with onDataChanged
    triggered for each. *)
Theorem removePsetProp_unlinks_and_removes psetID propID st pset prop hs :
  properties (model st) !! psetID = Some pset ->
  properties (model st) !! propID = Some prop ->
  type pset = IFCPROPERTYSET ->
  get_field pset "HasProperties" = Some (VArr (map newHandle hs)) ->
  let u := uuid (model st) in
  let pset' :=
    set_attr pset "HasProperties"
      (VArr (map newHandle (filter (fun h => h <> propID) hs))) in
  exists st',
    removePsetProp psetID propID st = (st', Ok tt) /\
    properties (model st') =
      delete propID (<[psetID := pset']> (properties (model st))) /\
    log st' = log st ++ [DataChanged u psetID; DataChanged u propID] /\
    (forall k, k ∈ change_set (mgr st') u <->
               k ∈ change_set (mgr st) u \/ k = psetID \/ k = propID).
Proof. exact (removePsetProp_run psetID propID st pset prop hs). Qed.

Lemma removePsetProp_unlinks_and_removes_witness :
  exists st',
    removePsetProp 10 11 sample_state = (st', Ok tt) /\
    properties (model st') =
      delete 11
        (<[10 := set_attr sample_pset "HasProperties"
                   (VArr (map newHandle (filter (fun h => h <> 11) [11])))]>
           (properties (model sample_state))) /\
    log st' = log sample_state ++
              [DataChanged "model-A" 10; DataChanged "model-A" 11] /\
    (forall k, k ∈ change_set (mgr st') "model-A" <->
               k ∈ change_set (mgr sample_state) "model-A" \/ k = 10 \/ k = 11).
Proof.
  apply (removePsetProp_unlinks_and_removes 10 11 sample_state sample_pset
           sample_prop [11]); reflexivity.
Defined.

(** X14: [removePsetProp] and [addPropToPset] return normally and change nothing
    when the model holds no entity under the Pset's ID; so does
    [removePsetProp] when it holds none under the property's ID, or when the
    entity under the Pset's ID is not an IfcPropertySet. *)
Theorem missing_pset_or_property_is_passed_over psetID propID st :
  (properties (model st) !! psetID = None ->
     removePsetProp psetID propID st = (st, Ok tt) /\
     forall ids, addPropToPset psetID ids st = (st, Ok tt)) /\
  (properties (model st) !! propID = None ->
     removePsetProp psetID propID st = (st, Ok tt)) /\
  (forall e, properties (model st) !! psetID = Some e ->
             type e <> IFCPROPERTYSET ->
     removePsetProp psetID propID st = (st, Ok tt)).
Proof.
  repeat apply conj.
  - intros E. split.
    + unfold removePsetProp, bind, getProperties. now rewrite E.
    + intros ids. unfold addPropToPset, bind, get_state, getProperties.
      now rewrite E.
  - intros E. unfold removePsetProp, bind, getProperties. rewrite E.
    now destruct (properties (model st) !! psetID).
  - intros e E Ht. unfold removePsetProp, bind, getProperties. rewrite E.
    destruct (properties (model st) !! propID); [|reflexivity].
    now rewrite bool_decide_false.
Qed.

Lemma missing_pset_or_property_is_passed_over_witness :
  removePsetProp 5 11 sample_state = (sample_state, Ok tt).
Proof.
  apply (proj2 (proj2 (missing_pset_or_property_is_passed_over 5 11
                         sample_state)) sample_ownerHistory eq_refl).
  discriminate.
Defined.

(** ** Attribute listeners: failures, independence, disposal *)

Lemma ensure_listeners st :
  exists st0,
    (match attributeListeners (mgr st) !! uuid (model st) with
     | None => put_mgr (with_listeners (mgr st)
                          (<[uuid (model st) := ∅]> (attributeListeners (mgr st))))
     | Some _ => ret tt
     end) st = (st0, Ok tt) /\
    model st0 = model st /\ events st0 = events st /\ guids st0 = guids st /\
    log st0 = log st /\ changeMap (mgr st0) = changeMap (mgr st) /\
    (forall u i n, existing_listener (mgr st0) u i n =
                   existing_listener (mgr st) u i n) /\
    is_Some (attributeListeners (mgr st0) !! uuid (model st)).
Proof.
  destruct (attributeListeners (mgr st) !! uuid (model st)) as [byID|] eqn:EL.
  - exists st. repeat apply conj; try reflexivity. rewrite EL. eauto.
  - eexists. split; [reflexivity|]. cbn. repeat apply conj; try reflexivity.
    + intros u i n. unfold existing_listener. cbn.
      rewrite lookup_insert. case_decide as Hu; [|reflexivity].
      subst u. rewrite EL. now rewrite lookup_empty.
    + rewrite lookup_insert_eq. eauto.
Qed.

Lemma setAttributeListener_outcome st id a :
  existing_listener (mgr st) (uuid (model st)) id a = None ->
  (setAttributeListener id a st).2 = listener_outcome st id a.
Proof.
  intros Hnone. unfold setAttributeListener, listener_outcome.
  unfold bind at 1. unfold get_state at 1. unfold bind at 1.
  destruct (ensure_listeners st)
    as (st0 & -> & Em & Ee & Eg & El & Ec & Ex & _).
  unfold bind at 1. unfold get_state at 1. rewrite Ex, Hnone.
  unfold bind at 1. unfold getProperties at 1. rewrite Em.
  destruct (properties (model st) !! id) as [e|] eqn:Ek; [|reflexivity].
  destruct (get_field e a) as [[|p|w|l]|] eqn:Ef; try reflexivity.
  { now destruct (falsy p). }
  destruct (slot_get (w_slot w)) as [v|] eqn:Ev; [|reflexivity].
  destruct (get_field_VObj _ _ _ Ef) as (Na & Nb & _).
  unfold bind at 1. unfold new_Event at 1.
  unfold bind at 1.
  rewrite (assign_field_some _ _ _ _ e) by (simpl; now rewrite Em).
  unfold bind at 1.
  erewrite assign_value_obj;
    [|simpl; rewrite Em; apply lookup_insert_eq
     |apply get_field_set_attr; assumption].
  cbv [bind get_state put_mgr ret]. simpl. now rewrite Ee.
Qed.

Lemma setAttributeListener_throw_state st id a st' e :
  setAttributeListener id a st = (st', Throw e) ->
  model st' = model st /\ events st' = events st /\ log st' = log st /\
  changeMap (mgr st') = changeMap (mgr st) /\
  forall u i n, existing_listener (mgr st') u i n =
                existing_listener (mgr st) u i n.
Proof.
  intros H. unfold setAttributeListener in H.
  unfold bind at 1 in H. unfold get_state at 1 in H. unfold bind at 1 in H.
  destruct (ensure_listeners st)
    as (st0 & E0 & Em & Ee & Eg & El & Ec & Ex & _).
  rewrite E0 in H.
  unfold bind at 1 in H. unfold get_state at 1 in H.
  destruct (existing_listener (mgr st0) (uuid (model st)) id a);
    [discriminate H|].
  unfold bind at 1 in H. unfold getProperties at 1 in H.
  assert (Done : forall x, (st0, @Throw EventId x) = (st', Throw e) ->
            model st' = model st /\ events st' = events st /\
            log st' = log st /\ changeMap (mgr st') = changeMap (mgr st) /\
            forall u i n, existing_listener (mgr st') u i n =
                          existing_listener (mgr st) u i n).
  { intros x [= <- _]. auto. }
  destruct (properties (model st0) !! id) as [ent|] eqn:Ek;
    [|exact (Done _ H)].
  destruct (get_field ent a) as [[|p|w|l]|] eqn:Ef;
    try exact (Done _ H).
  { destruct (falsy p); exact (Done _ H). }
  destruct (slot_get (w_slot w)) as [v|] eqn:Ev; [|exact (Done _ H)].
  destruct (get_field_VObj _ _ _ Ef) as (Na & Nb & _).
  unfold bind at 1 in H. unfold new_Event at 1 in H.
  unfold bind at 1 in H.
  rewrite (assign_field_some _ _ _ _ ent) in H by (simpl; assumption).
  unfold bind at 1 in H.
  erewrite assign_value_obj in H;
    [|simpl; apply lookup_insert_eq|apply get_field_set_attr; assumption].
  cbv [bind get_state put_mgr ret] in H. simpl in H. discriminate H.
Qed.

(** X19: With no listener registered yet for the attribute, [setAttributeListener]
    throws "entity doesn't exist" when the model holds nothing under the
    express ID, "array or null" when the attribute is missing, null, an array
    or a falsy primitive, and "badly defined handle" when it is another
    primitive or a wrapper without a value; otherwise it resolves with the next
    event.  A call that throws leaves the model, the change map and the log
    as they were, creates no event and registers no listener. *)
Theorem setAttributeListener_failures_change_nothing st id a :
  existing_listener (mgr st) (uuid (model st)) id a = None ->
  let r := setAttributeListener id a st in
  r.2 = listener_outcome st id a /\
  ((exists e, r.2 = Throw e) ->
   model r.1 = model st /\ events r.1 = events st /\ log r.1 = log st /\
   changeMap (mgr r.1) = changeMap (mgr st) /\
   forall u i n, existing_listener (mgr r.1) u i n =
                 existing_listener (mgr st) u i n).
Proof.
  intros Hnone r. split.
  - now apply setAttributeListener_outcome.
  - intros [e He]. subst r.
    destruct (setAttributeListener id a st) as [st' o] eqn:E.
    simpl in *. subst o. exact (setAttributeListener_throw_state _ _ _ _ _ E).
Qed.

Lemma setAttributeListener_failures_change_nothing_witness :
  (setAttributeListener 99 "Name" sample_state).2 = Throw (EntityMissing 99) /\
  (setAttributeListener 10 "HasProperties" sample_state).2 =
    Throw (AttributeArrayOrNull "HasProperties") /\
  (setAttributeListener 10 "Description" sample_state).2 =
    Throw (AttributeArrayOrNull "Description") /\
  (setAttributeListener 10 "expressID" sample_state).2 =
    Throw (BadHandle "expressID").
Proof.
  repeat apply conj.
  - apply (proj1 (setAttributeListener_failures_change_nothing sample_state
                    99 "Name" eq_refl)).
  - apply (proj1 (setAttributeListener_failures_change_nothing sample_state
                    10 "HasProperties" eq_refl)).
  - apply (proj1 (setAttributeListener_failures_change_nothing sample_state
                    10 "Description" eq_refl)).
  - apply (proj1 (setAttributeListener_failures_change_nothing sample_state
                    10 "expressID" eq_refl)).
Defined.

Lemma setAttributeListener_registers st id a e w v :
  existing_listener (mgr st) (uuid (model st)) id a = None ->
  properties (model st) !! id = Some e ->
  get_field e a = Some (VObj w) ->
  slot_get (w_slot w) = Some v ->
  let ev := events st in
  exists st',
    setAttributeListener id a st = (st', Ok ev) /\
    events st' = S ev /\
    log st' = log st ++ [AttributeSet ev v] /\
    properties (model st') =
      <[id := set_attr e a
                (VObj (mkWrapped (w_schema w) (w_class w)
                         (Accessor ev (Some v))))]> (properties (model st)) /\
    uuid (model st') = uuid (model st) /\
    (forall u i n,
        existing_listener (mgr st') u i n =
          if decide (u = uuid (model st) /\ i = id /\ n = a) then Some ev
          else existing_listener (mgr st) u i n).
Proof.
  intros Hnone Ek Ef Ev ev. unfold setAttributeListener.
  unfold bind at 1. unfold get_state at 1. unfold bind at 1.
  destruct (ensure_listeners st)
    as (st0 & -> & Em & Ee & Eg & El & Ec & Ex & [byID EbyID]).
  unfold bind at 1. unfold get_state at 1. rewrite Ex, Hnone.
  unfold bind at 1. unfold getProperties at 1. rewrite Em, Ek, Ef, Ev.
  destruct (get_field_VObj _ _ _ Ef) as (Na & Nb & _).
  unfold bind at 1. unfold new_Event at 1.
  unfold bind at 1.
  rewrite (assign_field_some _ _ _ _ e) by (simpl; now rewrite Em).
  unfold bind at 1.
  erewrite assign_value_obj;
    [|simpl; rewrite Em; apply lookup_insert_eq
     |apply get_field_set_attr; assumption].
  cbv [bind get_state put_mgr ret]. cbn -[existing_listener].
  eexists. split; [now rewrite Ee|]. cbn -[existing_listener].
  repeat apply conj.
  - reflexivity.
  - now rewrite El.
  - rewrite Em, insert_insert_eq, set_attr_set_attr. reflexivity.
  - now rewrite Em.
  - intros u i n. rewrite <- Ex. unfold existing_listener. cbn.
    rewrite EbyID. cbn. rewrite lookup_insert.
    destruct (decide (uuid (model st) = u)) as [<-|Hu].
    + rewrite EbyID, lookup_insert.
      destruct (decide (id = i)) as [<-|Hi].
      * rewrite lookup_insert.
        destruct (decide (a = n)) as [<-|Hn].
        -- rewrite decide_True by auto. reflexivity.
        -- rewrite decide_False by (intros (_ & _ & ?); congruence).
           now destruct (byID !! id).
      * rewrite decide_False by (intros (_ & ? & _); congruence). reflexivity.
    + rewrite decide_False by (intros (? & _ & _); congruence). reflexivity.
Qed.

Lemma listener_outcome_Ok st id a ev :
  listener_outcome st id a = Ok ev ->
  exists e w v,
    properties (model st) !! id = Some e /\
    get_field e a = Some (VObj w) /\ slot_get (w_slot w) = Some v.
Proof.
  unfold listener_outcome.
  destruct (properties (model st) !! id) as [e|]; [|discriminate].
  destruct (get_field e a) as [[|p|w|l]|] eqn:Ef; try discriminate.
  - destruct (falsy p); discriminate.
  - destruct (slot_get (w_slot w)) as [v|] eqn:Ev; [|discriminate].
    intros _. exists e, w, v. auto.
Qed.

Lemma get_field_set_attr_ne e a b v :
  a <> b -> b <> "expressID"%string -> b <> "type"%string ->
  get_field (set_attr e b v) a = get_field e a.
Proof.
  intros Hab H1 H2. unfold get_field, set_attr. simpl.
  repeat case_decide; try reflexivity.
  induction (attrs e) as [|[k x] l IH]; simpl.
  - now rewrite decide_False.
  - destruct (decide (b = k)) as [->|Hb]; simpl.
    + now rewrite !decide_False by assumption.
    + case_decide; [reflexivity|]. apply IH.
Qed.

(** X20: Listeners on two attributes whose objects are of different classes,
    hence two objects and not one object that two attributes share, are
    independent: registering the second one creates another event and leaves
    the first installed, so that an assignment to either attribute's value
    triggers its own event. *)
Theorem listeners_are_independent st id a e w id' a' e' w' st1 ev1 st2 ev2 :
  properties (model st) !! id = Some e ->
  get_field e a = Some (VObj w) ->
  properties (model st) !! id' = Some e' ->
  get_field e' a' = Some (VObj w') ->
  w_class w <> w_class w' ->
  existing_listener (mgr st) (uuid (model st)) id a = None ->
  existing_listener (mgr st) (uuid (model st)) id' a' = None ->
  setAttributeListener id a st = (st1, Ok ev1) ->
  setAttributeListener id' a' st1 = (st2, Ok ev2) ->
  ev1 <> ev2 /\
  forall v, exists s s',
    assign_value id a v st2 = (s, Ok tt) /\
    log s = log st2 ++ [AttributeSet ev1 v] /\
    assign_value id' a' v st2 = (s', Ok tt) /\
    log s' = log st2 ++ [AttributeSet ev2 v].
Proof.
  intros Ee0 Ew0 Ee0' Ew0' Hclass N1 N2 H1 H2.
  assert (Hne : (id, a) <> (id', a')).
  { intros [= -> ->]. rewrite Ee0 in Ee0'. injection Ee0' as <-.
    rewrite Ew0 in Ew0'. injection Ew0' as <-. now apply Hclass. }
  clear e w e' w' Ee0 Ew0 Ee0' Ew0' Hclass.
  pose proof (setAttributeListener_outcome st id a N1) as O1.
  rewrite H1 in O1. simpl in O1. symmetry in O1.
  destruct (listener_outcome_Ok _ _ _ _ O1) as (e & w & v1 & Ek & Ef & Ev).
  destruct (setAttributeListener_registers st id a e w v1 N1 Ek Ef Ev)
    as (st1' & R1 & Ee1 & _ & Ep1 & Eu1 & Ex1).
  rewrite H1 in R1. injection R1 as <- ->.
  assert (N2' : existing_listener (mgr st1) (uuid (model st1)) id' a' = None).
  { rewrite Eu1, Ex1, decide_False; [assumption|].
    intros (_ & -> & ->). now apply Hne. }
  pose proof (setAttributeListener_outcome st1 id' a' N2') as O2.
  rewrite H2 in O2. simpl in O2. symmetry in O2.
  destruct (listener_outcome_Ok _ _ _ _ O2) as (e2 & w2 & v2 & Ek2 & Ef2 & Ev2).
  destruct (setAttributeListener_registers st1 id' a' e2 w2 v2 N2' Ek2 Ef2 Ev2)
    as (st2' & R2 & _ & _ & Ep2 & _ & _).
  rewrite H2 in R2. injection R2 as <- ->.
  split; [rewrite Ee1; lia|].
  destruct (get_field_VObj _ _ _ Ef) as (Na & Nb & _).
  destruct (get_field_VObj _ _ _ Ef2) as (Na2 & Nb2 & _).
  assert (I1 : installed st2 id a (events st) (Some v1)).
  { unfold installed. rewrite Ep2.
    destruct (decide (id' = id)) as [->|Hid].
    - rewrite lookup_insert_eq. eexists _, _, _. split; [reflexivity|].
      rewrite get_field_set_attr_ne; try assumption.
      + rewrite Ep1, lookup_insert_eq in Ek2. injection Ek2 as <-.
        now apply get_field_set_attr.
      + intros ->. now apply Hne.
    - rewrite lookup_insert_ne by assumption. rewrite Ep1, lookup_insert_eq.
      eexists _, _, _. split; [reflexivity|]. now apply get_field_set_attr. }
  assert (I2 : installed st2 id' a' (events st1) (Some v2)).
  { unfold installed. rewrite Ep2, lookup_insert_eq.
    eexists _, _, _. split; [reflexivity|]. now apply get_field_set_attr. }
  intros v.
  destruct (assign_value_installed _ _ _ _ _ v I1) as (s & As & _ & Ls).
  destruct (assign_value_installed _ _ _ _ _ v I2) as (s' & As' & _ & Ls').
  exists s, s'. auto.
Qed.

Lemma listeners_are_independent_witness :
  let r1 := setAttributeListener 11 "NominalValue" sample_state in
  let r2 := setAttributeListener 11 "Name" r1.1 in
  0%nat <> 1%nat /\
  forall v, exists s s',
    assign_value 11 "NominalValue" v r2.1 = (s, Ok tt) /\
    log s = log r2.1 ++ [AttributeSet 0%nat v] /\
    assign_value 11 "Name" v r2.1 = (s', Ok tt) /\
    log s' = log r2.1 ++ [AttributeSet 1%nat v].
Proof.
  intros r1 r2.
  apply (listeners_are_independent sample_state
           11 "NominalValue" sample_prop
           (mkWrapped (Some IFC4) IfcLabel (Data (Some (PStr "EI60"))))
           11 "Name" sample_prop
           (mkWrapped (Some IFC4) IfcIdentifier (Data (Some (PStr "FireRating"))))
           r1.1 0%nat r2.1 1%nat);
    try (vm_compute; reflexivity).
  discriminate.
Defined.

(** X21: [dispose] forgets the listeners but not the setters they installed: a
    listener set again on the same attribute gets a new event, which replaces
    the old one in the setter, so that assignments trigger the new event and
    never again the one handed out before [dispose]. *)
Theorem listener_set_again_after_dispose_replaces_event st id a ev v :
  installed st id a ev (Some v) ->
  (ev < events st)%nat ->
  let ev' := events st in
  exists st',
    setAttributeListener id a (dispose st).1 = (st', Ok ev') /\
    ev' <> ev /\
    read_value (model st') id a = Some v /\
    forall v', exists s,
      assign_value id a v' st' = (s, Ok tt) /\
      log s = log st' ++ [AttributeSet ev' v'].
Proof.
  intros (e & sc & c & Ek & Ef) Hlt ev'.
  destruct (setAttributeListener_registers (dispose st).1 id a e
              (mkWrapped sc c (Accessor ev (Some v))) v)
    as (st' & R & _ & _ & Ep & _ & _); try assumption; try reflexivity.
  exists st'. split; [exact R|]. split; [unfold ev'; lia|].
  destruct (get_field_VObj _ _ _ Ef) as (Na & Nb & _).
  assert (I : installed st' id a ev' (Some v)).
  { unfold installed. rewrite Ep, lookup_insert_eq.
    eexists _, _, _. split; [reflexivity|]. now apply get_field_set_attr. }
  split; [apply (read_value_installed _ _ _ _ _ I)|].
  intros v'.
  destruct (assign_value_installed _ _ _ _ _ v' I) as (s & As & _ & Ls).
  eauto.
Qed.

Lemma listener_set_again_after_dispose_replaces_event_witness :
  let st := (setAttributeListener 11 "NominalValue" sample_state).1 in
  exists st',
    setAttributeListener 11 "NominalValue" (dispose st).1 = (st', Ok 1%nat) /\
    1%nat <> 0%nat /\
    read_value (model st') 11 "NominalValue" = Some (PStr "EI60") /\
    forall v', exists s,
      assign_value 11 "NominalValue" v' st' = (s, Ok tt) /\
      log s = log st' ++ [AttributeSet 1%nat v'].
Proof.
  intros st.
  apply (listener_set_again_after_dispose_replaces_event st 11 "NominalValue"
           0%nat (PStr "EI60")).
  - eexists _, _, _. split; vm_compute; reflexivity.
  - vm_compute. lia.
Defined.

(** ** The owner history, and the change sets *)

Lemma first_key_least_in (l : list N) k :
  foldr (fun k acc => match acc with
                      | None => Some k
                      | Some j => Some (N.min k j)
                      end) None l = Some k ->
  forall k', k' ∈ l -> k <= k'.
Proof.
  revert k. induction l as [|x l IH]; intros k; simpl.
  - discriminate.
  - destruct (foldr _ None l) as [j|] eqn:Ej.
    + intros [= <-] k' Hk'. apply elem_of_cons in Hk' as [->|Hk'].
      * apply N.le_min_l.
      * specialize (IH j eq_refl k' Hk'). pose proof (N.le_min_r x j). lia.
    + intros [= <-] k' Hk'. apply elem_of_cons in Hk' as [->|Hk']; [lia|].
      destruct l as [|y l]; [now apply elem_of_nil in Hk'|].
      simpl in Ej. destruct (foldr _ None l); discriminate Ej.
Qed.

(** X8: When [getOwnerHistory] returns, it returns the IfcOwnerHistory stored
    under the least express ID among those of the model, with a handle to
    the express ID that entity carries; it never changes anything. *)
Theorem getOwnerHistory_takes_the_first_one st :
  (getOwnerHistory st).1 = st /\
  forall oh h,
    (getOwnerHistory st).2 = Ok (oh, h) ->
    h = newHandle (expressID oh) /\
    type oh = IFCOWNERHISTORY /\
    exists k,
      properties (model st) !! k = Some oh /\
      forall k' e, properties (model st) !! k' = Some e ->
                   type e = IFCOWNERHISTORY -> k <= k'.
Proof.
  split; [apply getOwnerHistory_state|].
  intros oh h. unfold getOwnerHistory, bind, getAllPropertiesOfType.
  set (found := filter _ (properties (model st))).
  case_decide as Hf; [discriminate|].
  destruct (first_key found) as [k|] eqn:Ek; simpl; [|discriminate].
  destruct (found !! k) as [e|] eqn:Ee; simpl; [|discriminate].
  intros [= <- <-].
  apply map_lookup_filter_Some in Ee as [Ee Et]. simpl in Et.
  repeat split; try assumption.
  exists k. split; [assumption|]. intros k' e' Ek' Et'.
  apply (first_key_least_in _ _ Ek).
  apply list_elem_of_fmap. exists (k', e'). split; [reflexivity|].
  apply elem_of_map_to_list. apply map_lookup_filter_Some. auto.
Qed.

Lemma NoDup_set_add id s : NoDup s -> NoDup (set_add id s).
Proof.
  intros Hs. unfold set_add. case_bool_decide as Hin; [assumption|].
  apply NoDup_app. repeat split; try assumption.
  - intros x Hx Hx'. apply list_elem_of_singleton in Hx'. now subst.
  - apply NoDup_singleton.
Qed.

Lemma NoDup_add_all ids : forall s, NoDup s -> NoDup (add_all ids s).
Proof.
  induction ids as [|id ids IH]; intros s Hs; [assumption|].
  unfold add_all in *. simpl. apply IH. now apply NoDup_set_add.
Qed.

Lemma add_all_again ids : forall s,
  Forall (fun id => id ∈ s) ids -> add_all ids s = s.
Proof.
  induction 1 as [|id ids Hid _ IH]; [reflexivity|].
  unfold add_all in *. simpl. unfold set_add at 2.
  now rewrite bool_decide_true.
Qed.

(** X3: [registerChange] keeps the change set of the model a set: the given IDs
    are in it afterwards, each once, beside those it held; onDataChanged is
    triggered once per given ID, also for an ID that was registered already
    or is given twice; the model and the change sets of other models are not
    touched. *)
Theorem registerChange_adds_once_and_always_triggers ids st :
  let u := uuid (model st) in
  let st' := (registerChange ids st).1 in
  (registerChange ids st).2 = Ok tt /\
  model st' = model st /\
  (NoDup (change_set (mgr st) u) -> NoDup (change_set (mgr st') u)) /\
  (forall k, k ∈ change_set (mgr st') u <->
             k ∈ change_set (mgr st) u \/ k ∈ ids) /\
  (Forall (fun id => id ∈ change_set (mgr st) u) ids ->
   change_set (mgr st') u = change_set (mgr st) u) /\
  log st' = log st ++ map (DataChanged u) ids /\
  (forall u', u' <> u ->
              changeMap (mgr st') !! u' = changeMap (mgr st) !! u').
Proof.
  intros u st'. unfold st'. rewrite registerChange_eq. fold u. simpl.
  assert (E : change_set
                (with_changeMap (mgr st)
                   (<[u:=add_all ids (change_set (mgr st) u)]>
                      (changeMap (mgr st)))) u =
              add_all ids (change_set (mgr st) u)).
  { unfold change_set at 1, with_changeMap. cbn [changeMap].
    now rewrite lookup_insert_eq. }
  repeat apply conj; try reflexivity.
  - rewrite E. apply NoDup_add_all.
  - intros k. rewrite E. apply elem_of_add_all.
  - rewrite E. apply add_all_again.
  - intros u' Hu. now rewrite lookup_insert_ne by congruence.
Qed.

Lemma other_models_kept_refl st : other_models_kept st st.
Proof. now split. Qed.

Lemma other_models_kept_trans a b c :
  other_models_kept a b -> other_models_kept b c -> other_models_kept a c.
Proof.
  intros [U1 H1] [U2 H2]. split; [congruence|].
  intros u Hu. rewrite H2 by congruence. now apply H1.
Qed.

Lemma other_models_kept_same st st' :
  uuid (model st') = uuid (model st) ->
  changeMap (mgr st') = changeMap (mgr st) ->
  other_models_kept st st'.
Proof. intros U E. split; [assumption|]. intros u _. now rewrite E. Qed.

Lemma other_models_kept_setProperties id v :
  respects other_models_kept (setProperties id v).
Proof. intros st. now apply other_models_kept_same. Qed.

Lemma other_models_kept_assign_field id n v :
  respects other_models_kept (assign_field id n v).
Proof.
  intros st. unfold assign_field.
  destruct (properties (model st) !! id); now apply other_models_kept_same.
Qed.

Lemma other_models_kept_trigger s : respects other_models_kept (trigger s).
Proof. intros st. now apply other_models_kept_same. Qed.

Lemma other_models_kept_new_Event : respects other_models_kept new_Event.
Proof. intros st. now apply other_models_kept_same. Qed.

Lemma other_models_kept_increaseMaxID :
  respects other_models_kept increaseMaxID.
Proof. intros st. now apply other_models_kept_same. Qed.

Lemma other_models_kept_newGUID `{Externals} :
  respects other_models_kept newGUID.
Proof.
  intros st. unfold newGUID, bind, getIFCSchema, get_state. cbn.
  destruct (schema (model st)); cbn; now apply other_models_kept_same.
Qed.

Lemma other_models_kept_registerChange ids :
  respects other_models_kept (registerChange ids).
Proof.
  intros st. rewrite registerChange_eq. split; [reflexivity|].
  intros u Hu. simpl. now rewrite lookup_insert_ne by congruence.
Qed.

Ltac other_models_kept :=
  repeat first
    [ apply other_models_kept_refl
    | eapply other_models_kept_trans; eassumption
    | apply other_models_kept_setProperties
    | apply other_models_kept_assign_field | apply other_models_kept_trigger
    | apply other_models_kept_new_Event
    | apply other_models_kept_increaseMaxID
    | apply other_models_kept_newGUID
    | apply other_models_kept_registerChange
    | match goal with
      | K : context [respects other_models_kept _]
        |- respects other_models_kept _ => apply K
      end
    | frame_step
    | reflexivity
    | intros ].

Lemma other_models_kept_setData d : respects other_models_kept (setData d).
Proof. unfold setData. other_models_kept. Qed.

Lemma other_models_kept_newSingleProperty cls name value :
  respects other_models_kept (newSingleProperty cls name value).
Proof.
  unfold newSingleProperty. pose proof other_models_kept_setData.
  other_models_kept.
Qed.

Lemma other_models_kept_newPset `{Externals} name description :
  respects other_models_kept (newPset name description).
Proof.
  unfold newPset. pose proof other_models_kept_setData. other_models_kept.
Qed.

Lemma other_models_kept_delete_key k :
  respects other_models_kept (delete_key k).
Proof. unfold delete_key. other_models_kept. Qed.

Lemma other_models_kept_removePset `{Externals} ids :
  respects other_models_kept (removePset ids).
Proof.
  unfold removePset. pose proof other_models_kept_delete_key.
  other_models_kept.
Qed.

Lemma other_models_kept_removePsetProp p q :
  respects other_models_kept (removePsetProp p q).
Proof. unfold removePsetProp. other_models_kept. Qed.

Lemma other_models_kept_push_field id n v :
  respects other_models_kept (push_field id n v).
Proof. unfold push_field. other_models_kept. Qed.

Lemma other_models_kept_addElementToPset `{Externals} p ids :
  respects other_models_kept (addElementToPset p ids).
Proof.
  unfold addElementToPset. pose proof other_models_kept_push_field.
  other_models_kept.
Qed.

Lemma other_models_kept_addPropToPset p ids :
  respects other_models_kept (addPropToPset p ids).
Proof.
  unfold addPropToPset. pose proof other_models_kept_push_field.
  other_models_kept.
Qed.

Lemma other_models_kept_assign_value id n v :
  respects other_models_kept (assign_value id n v).
Proof. unfold assign_value. other_models_kept. Qed.

Lemma other_models_kept_setAttributeListener id a :
  respects other_models_kept (setAttributeListener id a).
Proof.
  intros st. unfold setAttributeListener.
  unfold bind at 1. unfold get_state at 1.
  apply respects_here;
    [intros; eapply other_models_kept_trans; eassumption | | ].
  - destruct (attributeListeners (mgr st) !! uuid (model st));
      now apply other_models_kept_same.
  - intros _. pose proof other_models_kept_assign_value.
    assert (K : forall (f : State -> Manager) (ev : EventId),
               (forall s, changeMap (f s) = changeMap (mgr s)) ->
               respects other_models_kept
                 (st2 <- get_state;; put_mgr (f st2);;; ret ev)).
    { intros f ev Hf s. apply other_models_kept_same; [reflexivity|].
      cbn. apply Hf. }
    other_models_kept.
Qed.

(** X5: Every operation of the manager but [dispose] works on the change set of
    its own model only: the model keeps its uuid, and what is registered for
    any other model is left as it was. *)
Theorem operations_leave_other_models_alone `{Externals} (o : Op) (st : State) :
  o <> Dispose ->
  other_models_kept st (run_op o st).1.
Proof.
  intros Hd.
  assert (D : forall A (m : M A),
             respects other_models_kept m ->
             respects other_models_kept (discard m)).
  { intros A m Hm. unfold discard. other_models_kept. }
  destruct o; simpl; try congruence;
    first [ apply other_models_kept_setData
          | apply D, other_models_kept_newPset
          | apply other_models_kept_removePset
          | apply D, other_models_kept_newSingleProperty
          | apply other_models_kept_removePsetProp
          | apply other_models_kept_addElementToPset
          | apply other_models_kept_addPropToPset
          | apply D, other_models_kept_setAttributeListener ].
Qed.

Lemma operations_leave_other_models_alone_witness :
  other_models_kept sample_state
    (@run_op sample_externals (NewPset "Pset_Custom" None) sample_state).1.
Proof.
  apply (@operations_leave_other_models_alone sample_externals
           (NewPset "Pset_Custom" None) sample_state).
  discriminate.
Defined.

(** ** Saving after other operations *)

Section SaveAfter.
Context {Api : Type} `{IfcLoader Api}.

Lemma saveToIfc_edit_calls (g : Manager) (m : Model)
    (ifcToSaveOn : list Byte.byte) (w : Wasm Api) (a1 : Api) (modelID : Z) :
  readIfcFile ifcToSaveOn (api w) = (a1, Ok modelID) ->
  exists rest,
    calls (saveToIfc g m ifcToSaveOn w).1 =
      calls w ++ CallReadIfcFile ifcToSaveOn ::
        map (edit_call m modelID) (change_set g (uuid m)) ++ rest.
Proof.
  intros Eread. unfold saveToIfc, change_set. destruct w as [a cs]. simpl in *.
  unfold bind at 1. unfold call at 1. simpl. rewrite Eread.
  unfold bind at 1. rewrite edit_loop. simpl.
  unfold bind at 1. unfold call at 1. simpl.
  destruct (SaveModel modelID _) as [a3 [out|e]]; simpl.
  2: { exists [CallSaveModel modelID]. now rewrite <- !app_assoc. }
  unfold bind at 1. unfold call at 1. simpl.
  destruct (CloseModel modelID a3) as [a4 [[]|e]]; simpl.
  2: { exists [CallSaveModel modelID; CallCloseModel modelID].
       now rewrite <- !app_assoc. }
  unfold bind at 1. unfold call at 1. simpl.
  destruct (cleanUp a4) as [a5 [[]|e]]; simpl;
    exists [CallSaveModel modelID; CallCloseModel modelID; CallCleanUp];
    now rewrite <- !app_assoc.
Qed.

Lemma saveToIfc_edit_call_made g m ifcToSaveOn (w : Wasm Api) a1 modelID id :
  readIfcFile ifcToSaveOn (api w) = (a1, Ok modelID) ->
  id ∈ change_set g (uuid m) ->
  edit_call m modelID id ∈ calls (saveToIfc g m ifcToSaveOn w).1.
Proof.
  intros Eread Hin.
  destruct (saveToIfc_edit_calls g m ifcToSaveOn w a1 modelID Eread)
    as (rest & ->).
  rewrite elem_of_app, elem_of_cons, elem_of_app. right. right. left.
  apply list_elem_of_fmap. eauto.
Qed.

(** X24: After [dispose], [saveToIfc] edits no line: whatever was registered as
    changed before is forgotten, and the file is saved as it was read. *)
Theorem dispose_discards_recorded_changes (st : State) (m : Model)
    (ifcToSaveOn : list Byte.byte) (w : Wasm Api)
    (modelID : Z) (a1 a3 a4 a5 : Api) (modifiedIFC : list Byte.byte) :
  readIfcFile ifcToSaveOn (api w) = (a1, Ok modelID) ->
  SaveModel modelID a1 = (a3, Ok modifiedIFC) ->
  CloseModel modelID a3 = (a4, Ok tt) ->
  cleanUp a4 = (a5, Ok tt) ->
  saveToIfc (mgr (dispose st).1) m ifcToSaveOn w =
    (mkWasm a5
       (calls w ++ [CallReadIfcFile ifcToSaveOn; CallSaveModel modelID;
                    CallCloseModel modelID; CallCleanUp]),
     Ok modifiedIFC).
Proof.
  intros Eread Esave Eclose Eclean. unfold saveToIfc.
  destruct w as [a cs]. simpl in *. rewrite lookup_empty. simpl.
  unfold bind at 1. unfold call at 1. simpl. rewrite Eread.
  unfold bind at 1. unfold ret at 1.
  unfold bind at 1. unfold call at 1. simpl. rewrite Esave.
  unfold bind at 1. unfold call at 1. simpl. rewrite Eclose.
  unfold bind at 1. unfold call at 1. simpl. rewrite Eclean.
  unfold ret. now rewrite <- !app_assoc.
Qed.

(** X25: A single-value property created by the manager is written by the next
    [saveToIfc]: WriteLine is called with it. *)
Theorem created_property_is_written_on_save (st : State) (s : Schema)
    (cls : WClass) (name : string) (value : Prim)
    (ifcToSaveOn : list Byte.byte) (w : Wasm Api) (a1 : Api) (modelID : Z) :
  schema (model st) = Some s ->
  readIfcFile ifcToSaveOn (api w) = (a1, Ok modelID) ->
  let r := newSingleProperty cls name value st in
  exists prop,
    r.2 = Ok prop /\
    CallWriteLine modelID prop ∈
      calls (saveToIfc (mgr r.1) (model r.1) ifcToSaveOn w).1.
Proof.
  intros Es Eread r.
  destruct (newSingleProperty_created st s cls name value Es)
    as (Er & Ep & Em & Ec & _).
  fold r in Er, Ep, Em, Ec. eexists. split; [exact Er|].
  destruct (other_models_kept_newSingleProperty cls name value st) as [Eu _].
  fold r in Eu.
  rewrite <- Eu in Ec.
  pose proof (saveToIfc_edit_call_made (mgr r.1) (model r.1) ifcToSaveOn w a1
                modelID _ Eread Ec) as K.
  unfold edit_call in K. rewrite Ep, lookup_insert_eq in K. exact K.
Qed.

(** X26: A property removed with [removePsetProp] is deleted by the next
    [saveToIfc], and the Pset it was unlinked from is written: DeleteLine is
    called with the property's ID and WriteLine with the edited Pset. *)
Theorem removed_property_is_deleted_on_save (psetID propID : N) (st : State)
    (pset prop : Entity) (hs : list N)
    (ifcToSaveOn : list Byte.byte) (w : Wasm Api) (a1 : Api) (modelID : Z) :
  properties (model st) !! psetID = Some pset ->
  properties (model st) !! propID = Some prop ->
  type pset = IFCPROPERTYSET ->
  get_field pset "HasProperties" = Some (VArr (map newHandle hs)) ->
  psetID <> propID ->
  readIfcFile ifcToSaveOn (api w) = (a1, Ok modelID) ->
  let st' := (removePsetProp psetID propID st).1 in
  let cs := calls (saveToIfc (mgr st') (model st') ifcToSaveOn w).1 in
  CallDeleteLine modelID propID ∈ cs /\
  CallWriteLine modelID
    (set_attr pset "HasProperties"
       (VArr (map newHandle (filter (fun h => h <> propID) hs)))) ∈ cs.
Proof.
  intros Ep Eq Et Ef Hne Eread st' cs.
  destruct (removePsetProp_run psetID propID st pset prop hs
              Ep Eq Et Ef) as (st1 & R & Epr & _ & Ec).
  assert (E1 : st' = st1) by (unfold st'; now rewrite R). subst st1.
  destruct (other_models_kept_removePsetProp psetID propID st) as [Eu _].
  fold st' in Eu.
  rewrite <- Eu in Ec. split.
  - pose proof (saveToIfc_edit_call_made (mgr st') (model st') ifcToSaveOn w
                  a1 modelID propID Eread) as K.
    unfold edit_call in K. rewrite Epr, lookup_delete_eq in K.
    apply K, Ec. auto.
  - pose proof (saveToIfc_edit_call_made (mgr st') (model st') ifcToSaveOn w
                  a1 modelID psetID Eread) as K.
    unfold edit_call in K.
    rewrite Epr, lookup_delete_ne, lookup_insert_eq in K by congruence.
    apply K, Ec. auto.
Qed.

End SaveAfter.

Lemma dispose_discards_recorded_changes_witness :
  let st := (removePsetProp 10 11 sample_state).1 in
  exists a modifiedIFC,
    @saveToIfc _ sample_loader (mgr (dispose st).1) (model st) []
      (mkWasm (properties sample_model) []) =
      (mkWasm a [CallReadIfcFile []; CallSaveModel 0%Z; CallCloseModel 0%Z;
                 CallCleanUp], Ok modifiedIFC).
Proof.
  intros st. eexists. eexists.
  eapply (@dispose_discards_recorded_changes _ sample_loader st (model st) []
            (mkWasm (properties sample_model) []) 0%Z
            (properties sample_model)); reflexivity.
Defined.

Lemma created_property_is_written_on_save_witness :
  let r := newSingleProperty IfcLabel "Finish" (PStr "Paint") sample_state in
  exists prop,
    r.2 = Ok prop /\
    CallWriteLine 0%Z prop ∈
      calls (@saveToIfc _ sample_loader (mgr r.1) (model r.1) []
               (mkWasm (properties sample_model) [])).1.
Proof.
  apply (@created_property_is_written_on_save _ sample_loader sample_state
           IFC4 IfcLabel "Finish" (PStr "Paint") []
           (mkWasm (properties sample_model) []) (properties sample_model)
           0%Z); reflexivity.
Defined.

Lemma removed_property_is_deleted_on_save_witness :
  let st' := (removePsetProp 10 11 sample_state).1 in
  let cs := calls (@saveToIfc _ sample_loader (mgr st') (model st') []
                     (mkWasm (properties sample_model) [])).1 in
  CallDeleteLine 0%Z 11 ∈ cs /\
  CallWriteLine 0%Z
    (set_attr sample_pset "HasProperties"
       (VArr (map newHandle (filter (fun h => h <> 11) [11])))) ∈ cs.
Proof.
  apply (@removed_property_is_deleted_on_save _ sample_loader 10 11
           sample_state sample_pset sample_prop [11] []
           (mkWasm (properties sample_model) []) (properties sample_model)
           0%Z); (reflexivity || discriminate).
Defined.

